(** * sec-mcp: the inline-XBRL parser and the dimensional fact matcher

    A shallow embedding of [src/xbrl-parser.js]: the annotation extractor
    ([extractFactsFromIxbrl]), the context resolver
    ([extractContextsFromIxbrl] and its three helpers), the two small
    decoders ([parseXbrlName], [parseNumericValue]) and the fact matcher
    ([findDimensionalFacts]).

    Conventions of the embedding.
    - A JavaScript string is a [string]; a character is one code unit, and
      the model covers the code units below 256.
    - A JavaScript number is a binary64 value, [spec_float] with precision
      53 and maximal exponent 1024, with the operations of [SpecFloat].
    - A JavaScript object used as a dictionary is a [gmap string _]: its own
      string-keyed properties.  Keys inherited from [Object.prototype] are
      outside this model.
    - A regular expression is a term of [regex], run by a backtracking
      matcher written in continuation-passing style after the pattern
      semantics of ECMA-262. *)

From Stdlib Require Import ZArith Ascii String List Bool Lia DecimalString.
From Stdlib Require Import Floats.SpecFloat.
From stdpp Require Import base option list strings gmap fin_maps.

Local Open Scope string_scope.

(** ** Characters and strings *)

Module Char.

Definition code (c : ascii) : nat := nat_of_ascii c.

Definition between (lo hi : nat) (c : ascii) : bool :=
  (lo <=? code c)%nat && (code c <=? hi)%nat.

(** [String.prototype.toLowerCase], one code unit at a time: the letters
    A-Z and the Latin-1 capitals (all of 0xC0-0xDE but the sign 0xD7). *)
Definition toLower (c : ascii) : ascii :=
  if between 65 90 c then ascii_of_nat (code c + 32)
  else if between 192 222 c && negb (code c =? 215)%nat
       then ascii_of_nat (code c + 32)
  else c.

(** [Canonicalize] of ECMA-262 for a pattern with the [i] flag and without
    the [u] flag: the upper-case form of the code unit.  The small letters
    0xB5, 0xDF and 0xFF have no one-unit upper-case form below 256 and stay
    as they are; each stays distinct from every other code unit. *)
Definition canonicalize (c : ascii) : ascii :=
  if between 97 122 c then ascii_of_nat (code c - 32)
  else if between 224 254 c && negb (code c =? 247)%nat
       then ascii_of_nat (code c - 32)
  else c.

(** White space and line terminators below 256 ([StrWhiteSpaceChar]):
    TAB, LF, VT, FF, CR, SP and NBSP. *)
Definition isWhiteSpace (c : ascii) : bool :=
  between 9 13 c || (code c =? 32)%nat || (code c =? 160)%nat.

Definition isDigit (c : ascii) : bool := between 48 57 c.

Definition digit (c : ascii) : Z := Z.of_nat (code c) - 48.

Definition eqb (a b : ascii) : bool := Ascii.eqb a b.

End Char.

Module Str.

Fixpoint map (f : ascii -> ascii) (s : string) : string :=
  match s with
  | EmptyString => EmptyString
  | String c t => String (f c) (map f t)
  end.

Fixpoint take (n : nat) (s : string) : string :=
  match n, s with
  | S n', String c t => String c (take n' t)
  | _, _ => EmptyString
  end.

(** [stripPrefix eqc p s]: the rest of [s] after the prefix [p], the
    characters compared with [eqc]. *)
Fixpoint stripPrefix (eqc : ascii -> ascii -> bool) (p s : string) : option string :=
  match p with
  | EmptyString => Some s
  | String a p' =>
      match s with
      | String b s' => if eqc a b then stripPrefix eqc p' s' else None
      | EmptyString => None
      end
  end.

(** [String.prototype.includes]: [p] occurs in [s]. *)
Fixpoint includes (s p : string) : bool :=
  match stripPrefix Char.eqb p s with
  | Some _ => true
  | None =>
      match s with
      | EmptyString => false
      | String _ t => includes t p
      end
  end.

Definition toLowerCase (s : string) : string := map Char.toLower s.

Fixpoint dropWhile (p : ascii -> bool) (s : string) : string :=
  match s with
  | String c t => if p c then dropWhile p t else s
  | EmptyString => EmptyString
  end.

(** [String.prototype.trim]. *)
Definition trim (s : string) : string :=
  String.rev (dropWhile Char.isWhiteSpace
                (String.rev (dropWhile Char.isWhiteSpace s))).

(** [s.replace(/,/g, '')]: every comma removed. *)
Fixpoint removeCommas (s : string) : string :=
  match s with
  | EmptyString => EmptyString
  | String c t => if Char.eqb c "," then removeCommas t else String c (removeCommas t)
  end.

(** [s.split(':')]: the pieces between the separators; a string with [n]
    separators has [n + 1] pieces, the empty string one (empty) piece. *)
Fixpoint split (sep : ascii) (s : string) : list string :=
  match s with
  | EmptyString => [EmptyString]
  | String c t =>
      if Char.eqb c sep then EmptyString :: split sep t
      else match split sep t with
           | p :: ps => String c p :: ps
           | [] => [String c EmptyString]
           end
  end.

Fixpoint count (c : ascii) (s : string) : nat :=
  match s with
  | EmptyString => 0
  | String a t => (if Char.eqb a c then 1 else 0) + count c t
  end.

End Str.

(** A string is truthy when it is not empty; an absent value is falsy. *)
Definition truthy (o : option string) : bool :=
  match o with
  | Some (String _ _) => true
  | _ => false
  end.

(** ** Regular expressions

    The fragment of the pattern language that the parser's literals use. *)

Inductive cclass : Type :=
  | AnyChar                     (* [.] under the [s] flag *)
  | NotChar (c : ascii).        (* [[^c]] *)

Inductive regex : Type :=
  | Lit (s : string)                    (* literal text *)
  | Cls (c : cclass)                    (* one character of a class *)
  | Seq (r1 r2 : regex)                 (* r1 r2 *)
  | Star (greedy : bool) (r : regex)    (* r* and r*? *)
  | Opt (r : regex)                     (* (?:r)? *)
  | Grp (i : nat) (r : regex).          (* the i-th capturing group *)

Record regexp : Type := RegExp {
  source : regex;
  ngroups : nat;
  ignoreCase : bool
}.

(** The state of a match: the text not yet consumed and the captures, the
    group [i] at index [i] (index 0 is not used). *)
Record mstate : Type := MState {
  rest : string;
  caps : list (option string)
}.

Definition cont : Type := mstate -> option mstate.
Definition matcher : Type := mstate -> cont -> option mstate.

Fixpoint groups (r : regex) : list nat :=
  match r with
  | Lit _ | Cls _ => []
  | Seq r1 r2 => groups r1 ++ groups r2
  | Star _ r | Opt r => groups r
  | Grp i r => i :: groups r
  end.

Definition setCap (i : nat) (v : option string) (cs : list (option string)) :=
  <[i := v]> cs.

(** The captures of the groups inside a quantified atom are reset when an
    iteration starts (RepeatMatcher, step 4). *)
Definition clearCaps (gs : list nat) (x : mstate) : mstate :=
  MState (rest x) (foldr (fun i cs => setCap i None cs) (caps x) gs).

(** The text consumed between the state [x] and the later state [y]. *)
Definition consumed (x y : mstate) : string :=
  Str.take (String.length (rest x) - String.length (rest y)) (rest x).

Definition orElse (a : option mstate) (b : unit -> option mstate) : option mstate :=
  match a with
  | Some z => Some z
  | None => b tt
  end.

Section Matcher.

Variable ci : bool.   (* the [i] flag *)

Definition charEq (a b : ascii) : bool :=
  if ci then Char.eqb (Char.canonicalize a) (Char.canonicalize b)
  else Char.eqb a b.

Definition clsMatch (c : cclass) (a : ascii) : bool :=
  match c with
  | AnyChar => true
  | NotChar b => negb (charEq b a)
  end.

(** An iteration that consumes nothing is rejected (the empty check of
    RepeatMatcher). *)
Definition progress (x : mstate) (k : cont) : cont :=
  fun y => if (String.length (rest y) =? String.length (rest x))%nat
           then None else k y.

(** [r*] (greedy) and [r*?] (lazy) over the body [m].  Each iteration
    consumes at least one character, so [fuel] iterations are enough when
    [fuel] is the length of the text left: [matchRe_star] below gives the
    equations of the star without the fuel. *)
Fixpoint repeatMatcher (m : matcher) (greedy : bool) (fuel : nat)
    (x : mstate) (k : cont) : option mstate :=
  match fuel with
  | 0 => k x
  | S n =>
      if greedy
      then orElse (m x (progress x (fun y => repeatMatcher m greedy n y k)))
                  (fun _ => k x)
      else orElse (k x)
                  (fun _ => m x (progress x (fun y => repeatMatcher m greedy n y k)))
  end.

Fixpoint matchRe (r : regex) : matcher :=
  match r with
  | Lit s => fun x k =>
      match Str.stripPrefix charEq s (rest x) with
      | Some t => k (MState t (caps x))
      | None => None
      end
  | Cls c => fun x k =>
      match rest x with
      | String a t => if clsMatch c a then k (MState t (caps x)) else None
      | EmptyString => None
      end
  | Seq r1 r2 => fun x k => matchRe r1 x (fun y => matchRe r2 y k)
  | Star greedy r1 => fun x k =>
      repeatMatcher (fun x' k' => matchRe r1 (clearCaps (groups r1) x') k')
                    greedy (String.length (rest x)) x k
  | Opt r1 => fun x k =>
      orElse (matchRe r1 (clearCaps (groups r1) x) (progress x k))
             (fun _ => k x)
  | Grp i r1 => fun x k =>
      matchRe r1 x (fun y => k (MState (rest y) (setCap i (Some (consumed x y)) (caps y))))
  end.

End Matcher.

(** One result of [RegExp.prototype.exec]: the index of the match counted
    from where the search started, the matched text, the captures and the
    text after the match. *)
Record mresult : Type := MResult {
  index : nat;
  fullMatch : string;
  captures : list (option string);
  after : string
}.

Definition capture (i : nat) (m : mresult) : option string :=
  default None (captures m !! i).

Definition matchAt (re : regexp) (s : string) : option mresult :=
  let x := MState s (replicate (S (ngroups re)) None) in
  match matchRe (ignoreCase re) (source re) x Some with
  | Some y => Some (MResult 0 (consumed x y) (caps y) (rest y))
  | None => None
  end.

(** The search of [exec]: the first index, from the left, at which the
    pattern matches. *)
Fixpoint search (re : regexp) (s : string) : option mresult :=
  match matchAt re s with
  | Some m => Some m
  | None =>
      match s with
      | EmptyString => None
      | String _ t =>
          match search re t with
          | Some m => Some (MResult (S (index m)) (fullMatch m) (captures m) (after m))
          | None => None
          end
      end
  end.

(** [while ((match = re.exec(s)) !== null)] for a pattern with the [g]
    flag: each search starts where the last match ended.  The patterns of
    the parser start with a literal, so a match is never empty and the
    length of the text bounds the number of matches: [execAll_unfold]
    below gives the equation of the loop without the fuel. *)
Fixpoint execLoop (fuel : nat) (re : regexp) (s : string) : list mresult :=
  match fuel with
  | 0 => []
  | S n =>
      match search re s with
      | Some m => m :: execLoop n re (after m)
      | None => []
      end
  end.

Definition execAll (re : regexp) (s : string) : list mresult :=
  execLoop (S (String.length s)) re s.

(** [s.match(re)] for a pattern without the [g] flag. *)
Definition matchFirst (re : regexp) (s : string) : option mresult := search re s.

(** ** The patterns of the parser *)

Definition dquote : ascii := ascii_of_nat 34.

(** Source text is written with a single quote where the markup has a
    double quote, here and in the comments that cite a pattern (where a
    blank also separates a star from a closing parenthesis). *)
Definition dq (s : string) : string :=
  Str.map (fun c => if Char.eqb c "'" then dquote else c) s.

Fixpoint seqs (rs : list regex) : regex :=
  match rs with
  | [] => Lit EmptyString
  | [r] => r
  | r :: rs' => Seq r (seqs rs')
  end.

Definition notGt : regex := Star true (Cls (NotChar ">")).       (* [^>]* *)
Definition notLt : regex := Star true (Cls (NotChar "<")).       (* [^<]* *)
Definition notQuote : regex := Star true (Cls (NotChar dquote)). (* [^']* *)

(** [name='([^']* )'], the value captured by the group [i]. *)
Definition attr (name : string) (i : nat) : regex :=
  seqs [Lit (dq (name +:+ "='")); Grp i notQuote; Lit (dq "'")].

(** Pattern 1, the numeric-fraction annotations, flags [gi]:
    [<ix:nonFraction[^>]*name='([^']* )'[^>]*contextRef='([^']* )'[^>]*
     (?:unitRef='([^']* )')?[^>]*(?:decimals='([^']* )')?[^>]*
     (?:scale='([^']* )')?[^>]*>([^<]* )<\/ix:nonFraction>] *)
Definition nonFractionPattern : regexp :=
  RegExp (seqs [Lit "<ix:nonFraction"; notGt; attr "name" 1; notGt;
                attr "contextRef" 2; notGt;
                Opt (attr "unitRef" 3); notGt;
                Opt (attr "decimals" 4); notGt;
                Opt (attr "scale" 5); notGt;
                Lit ">"; Grp 6 notLt; Lit "</ix:nonFraction>"])
         6 true.

(** Pattern 2, the ratio-fraction annotations, flags [gi]:
    [<ix:fraction[^>]*name='([^']* )'[^>]*contextRef='([^']* )'[^>]*>([^<]* )<\/ix:fraction>] *)
Definition fractionPattern : regexp :=
  RegExp (seqs [Lit "<ix:fraction"; notGt; attr "name" 1; notGt;
                attr "contextRef" 2; notGt;
                Lit ">"; Grp 3 notLt; Lit "</ix:fraction>"])
         3 true.

(** Pattern 3, the free-text annotations, flags [gi]:
    [<ix:nonNumeric[^>]*name='([^']* )'[^>]*contextRef='([^']* )'[^>]*>([^<]* )<\/ix:nonNumeric>] *)
Definition nonNumericPattern : regexp :=
  RegExp (seqs [Lit "<ix:nonNumeric"; notGt; attr "name" 1; notGt;
                attr "contextRef" 2; notGt;
                Lit ">"; Grp 3 notLt; Lit "</ix:nonNumeric>"])
         3 true.

(** The context blocks of a vocabulary [v], flags [gs]:
    [<v:context[^>]*id='([^']* )'[^>]*>(.*?)<\/v:context>] *)
Definition contextBlock (v : string) : regexp :=
  RegExp (seqs [Lit ("<" +:+ v +:+ ":context"); notGt; attr "id" 1; notGt;
                Lit ">"; Grp 2 (Star false (Cls AnyChar));
                Lit ("</" +:+ v +:+ ":context>")])
         2 false.

Definition contextPattern : regexp := contextBlock "ix".
Definition xbrliContextPattern : regexp := contextBlock "xbrli".

Definition openTag (tag : string) : string := "<xbrli:" +:+ tag +:+ ">".
Definition closeTag (tag : string) : string := "</xbrli:" +:+ tag +:+ ">".

(** [<xbrli:tag>([^<]* )<\/xbrli:tag>], no flags. *)
Definition element (tag : string) : regexp :=
  RegExp (seqs [Lit (openTag tag); Grp 1 notLt; Lit (closeTag tag)]) 1 false.

(** [<xbrli:identifier[^>]*>([^<]* )<\/xbrli:identifier>], no flags. *)
Definition identifierPattern : regexp :=
  RegExp (seqs [Lit "<xbrli:identifier"; notGt; Lit ">"; Grp 1 notLt;
                Lit "</xbrli:identifier>"])
         1 false.

(** [<xbrldi:explicitMember[^>]*dimension='([^']* )'[^>]*>([^<]* )<\/xbrldi:explicitMember>],
    flag [g]. *)
Definition memberPattern : regexp :=
  RegExp (seqs [Lit "<xbrldi:explicitMember"; notGt; attr "dimension" 1; notGt;
                Lit ">"; Grp 2 notLt; Lit "</xbrldi:explicitMember>"])
         2 false.

(** ** Names *)

(** [parseXbrlName]: a name with exactly one separator is split in two;
    every other name gets the namespace ["default"] and stays whole. *)
Definition parseXbrlName (name : string) : string * string :=
  match Str.split ":" name with
  | [ns; localName] => (ns, localName)
  | _ => ("default", name)
  end.

(** ** Numbers

    The Number type is binary64.  The values built here are in normal form
    (they come out of the rounding functions of [SpecFloat]), which the
    comparisons of [SpecFloat] expect. *)

Module Num.

Definition number : Type := spec_float.

Definition prec : Z := 53.
Definition emax : Z := 1024.

Definition NaN : number := S754_nan.
Definition zero : number := S754_zero false.

Definition isNaN (x : number) : bool :=
  match x with
  | S754_nan => true
  | _ => false
  end.

(** ToBoolean of a number: false for NaN, +0 and -0. *)
Definition truthy (x : number) : bool :=
  match x with
  | S754_nan | S754_zero _ => false
  | _ => true
  end.

Definition mul (x y : number) : number := SFmul prec emax x y.
Definition ltb (x y : number) : bool := SFltb x y.     (* x < y *)
Definition leb (x y : number) : bool := SFleb x y.     (* x <= y *)
Definition eqb (x y : number) : bool := SFeqb x y.     (* x == y *)

(** The number nearest to [m * 10 ^ e] (ties to even), negated when [neg]:
    the rounding of a decimal literal.  For [e < 0] the quotient of the two
    integers is rounded once, by the division of [SpecFloat]. *)
Definition ofDecimal (neg : bool) (m : Z) (e : Z) : number :=
  match m with
  | Zpos p =>
      if (0 <=? e)%Z
      then binary_round prec emax neg (Z.to_pos (Zpos p * 10 ^ e)) 0
      else SFdiv prec emax (S754_finite neg p 0)
                           (S754_finite false (Z.to_pos (10 ^ (- e))) 0)
  | _ => S754_zero neg
  end.

Definition ofZ (z : Z) : number := ofDecimal (z <? 0)%Z (Z.abs z) 0.

(** The longest run of decimal digits at the head of [s], and the rest. *)
Fixpoint spanDigits (s : string) : string * string :=
  match s with
  | String c t =>
      if Char.isDigit c
      then let (ds, r) := spanDigits t in (String c ds, r)
      else (EmptyString, s)
  | EmptyString => (EmptyString, EmptyString)
  end.

(** The value of a digit string in a radix, most significant digit first. *)
Fixpoint valueIn (radix : Z) (digitOf : ascii -> Z) (acc : Z) (ds : string) : Z :=
  match ds with
  | String c t => valueIn radix digitOf (acc * radix + digitOf c)%Z t
  | EmptyString => acc
  end.

Definition decimalValue (ds : string) : Z := valueIn 10 Char.digit 0 ds.

(** An optional sign: whether it is a minus, and the rest. *)
Definition spanSign (s : string) : bool * string :=
  match s with
  | String "-" t => (true, t)
  | String "+" t => (false, t)
  | _ => (false, s)
  end.

(** The exponent part [e], [e+] or [e-] with its digits; it counts only
    when at least one digit follows. *)
Definition exponentPart (s : string) : Z :=
  match s with
  | String c t =>
      if Char.eqb c "e" || Char.eqb c "E"
      then let (neg, t') := spanSign t in
           let (ds, _) := spanDigits t' in
           match ds with
           | EmptyString => 0%Z
           | _ => if neg then (- decimalValue ds)%Z else decimalValue ds
           end
      else 0%Z
  | EmptyString => 0%Z
  end.

(** [parseFloat]: leading white space is skipped, the longest prefix that is
    a decimal literal is read ([Infinity], or digits with an optional
    fraction and exponent, all with an optional sign), and what follows is
    ignored.  The result is NaN when no prefix is a literal. *)
Definition parseFloat (s : string) : number :=
  let (neg, s1) := spanSign (Str.dropWhile Char.isWhiteSpace s) in
  match Str.stripPrefix Char.eqb "Infinity" s1 with
  | Some _ => S754_infinity neg
  | None =>
      let (ip, s2) := spanDigits s1 in
      let (fp, s3) :=
        match s2 with
        | String "." t => spanDigits t
        | _ => (EmptyString, s2)
        end in
      match ip, fp with
      | EmptyString, EmptyString => NaN
      | _, _ =>
          ofDecimal neg (decimalValue (ip +:+ fp))
                    (exponentPart s3 - Z.of_nat (String.length fp))
      end
  end.

Definition isHexDigit (c : ascii) : bool :=
  Char.isDigit c || Char.between 65 70 c || Char.between 97 102 c.

Definition hexDigit (c : ascii) : Z :=
  if Char.isDigit c then Char.digit c
  else if Char.between 65 70 c then Z.of_nat (Char.code c) - 55
  else Z.of_nat (Char.code c) - 87.

Fixpoint spanHexDigits (s : string) : string * string :=
  match s with
  | String c t =>
      if isHexDigit c
      then let (ds, r) := spanHexDigits t in (String c ds, r)
      else (EmptyString, s)
  | EmptyString => (EmptyString, EmptyString)
  end.

(** [parseInt] without a radix: white space, a sign, then hexadecimal digits
    after [0x] or [0X], decimal digits otherwise; [None] stands for NaN.
    The integer is kept exact: its only use is as the exponent of
    [Math.pow], where rounding it to a number changes nothing. *)
Definition parseInt (s : string) : option Z :=
  let (neg, s1) := spanSign (Str.dropWhile Char.isWhiteSpace s) in
  let signed (z : Z) := if neg then (- z)%Z else z in
  let decimal :=
    match fst (spanDigits s1) with
    | EmptyString => None
    | ds => Some (signed (decimalValue ds))
    end in
  match s1 with
  | String "0" (String x t) =>
      if Char.eqb x "x" || Char.eqb x "X"
      then match fst (spanHexDigits t) with
           | EmptyString => None
           | ds => Some (signed (valueIn 16 hexDigit 0 ds))
           end
      else decimal
  | _ => decimal
  end.

(** [Math.pow(10, n)] for the result [n] of [parseInt]: NaN for NaN, else
    the number nearest to the power (the powers from [10^0] to [10^22] are
    numbers themselves). *)
Definition pow10 (n : option Z) : number :=
  match n with
  | Some z => ofDecimal false 1 z
  | None => NaN
  end.

(** *** The string form of a number ([Number::toString], radix 10) *)

Definition digitsOfPos (p : positive) : string :=
  DecimalString.NilZero.string_of_uint (Pos.to_uint p).

Definition digitsOfZ (z : Z) : string :=
  match z with
  | Zpos p => digitsOfPos p
  | _ => "0"
  end.

Fixpoint zeros (n : nat) : string :=
  match n with
  | 0 => EmptyString
  | S n' => String "0" (zeros n')
  end.

(** [floor (m * 2^e * 10^p)]. *)
Definition scaled (m : positive) (e p : Z) : Z :=
  let num := (Zpos m * (if 0 <=? e then 2 ^ e else 1) * (if 0 <=? p then 10 ^ p else 1))%Z in
  let den := ((if 0 <=? e then 1 else 2 ^ (- e)) * (if 0 <=? p then 1 else 10 ^ (- p)))%Z in
  (num / den)%Z.

(** The [n] with [10^(n-1) <= m * 2^e < 10^n]: an estimate from the binary
    length, then at most a few steps up. *)
Fixpoint magnitudeFrom (fuel : nat) (m : positive) (e n : Z) : Z :=
  match fuel with
  | 0 => n
  | S f => if (1 <=? scaled m e (- n))%Z then magnitudeFrom f m e (n + 1)%Z else n
  end.

Definition magnitude (m : positive) (e : Z) : Z :=
  let b := (Zpos (digits2_pos m) + e)%Z in
  magnitudeFrom 4 m e ((b - 1) * 30103 / 100000 - 1)%Z.

(** Twice the distance of [s * 10^q] to [m * 2^e], scaled by a common
    positive factor: enough to compare two candidates. *)
Definition distance (m : positive) (e s q : Z) : Z :=
  let a := (s * (if 0 <=? q then 10 ^ q else 1) * (if 0 <=? e then 1 else 2 ^ (- e)))%Z in
  let b := (Zpos m * (if 0 <=? e then 2 ^ e else 1) * (if 0 <=? q then 1 else 10 ^ (- q)))%Z in
  Z.abs (a - b).

(** The digits [s] of the shortest decimal that reads back as the number,
    for the lengths [k] from [17 - fuel + 1] up: of the two candidates next
    to the number, the one that reads back; of two that do, the nearer; of
    two equally near, the even one. *)
Fixpoint shortestFrom (fuel : nat) (m : positive) (e n k : Z) : Z * Z :=
  let x := S754_finite false m e in
  let lo := scaled m e (k - n) in
  let hi := (lo + 1)%Z in
  let okLo := (10 ^ (k - 1) <=? lo)%Z && SFeqb (ofDecimal false lo (n - k)) x in
  let okHi := (hi <? 10 ^ k)%Z && SFeqb (ofDecimal false hi (n - k)) x in
  match fuel with
  | 0 => (lo, k)
  | S f =>
      match okLo, okHi with
      | true, true =>
          match (distance m e lo (n - k) ?= distance m e hi (n - k))%Z with
          | Lt => (lo, k)
          | Gt => (hi, k)
          | Eq => if Z.even lo then (lo, k) else (hi, k)
          end
      | true, false => (lo, k)
      | false, true => (hi, k)
      | false, false => shortestFrom f m e n (k + 1)%Z
      end
  end.

(** The triple [(s, k, n)] of [Number::toString]. *)
Definition shortest (m : positive) (e : Z) : Z * Z * Z :=
  let n := magnitude m e in
  if SFeqb (ofDecimal false 1 n) (S754_finite false m e)
  then (1%Z, 1%Z, (n + 1)%Z)
  else let (s, k) := shortestFrom 17 m e n 1 in (s, k, n).

Definition formatDigits (skn : Z * Z * Z) : string :=
  let '(s, k, n) := skn in
  let ds := digitsOfZ s in
  if (k <=? n)%Z && (n <=? 21)%Z then
    ds +:+ zeros (Z.to_nat (n - k))
  else if (0 <? n)%Z && (n <=? 21)%Z then
    Str.take (Z.to_nat n) ds +:+ "." +:+ String.substring (Z.to_nat n) (Z.to_nat (k - n)) ds
  else if (-6 <? n)%Z && (n <=? 0)%Z then
    "0." +:+ zeros (Z.to_nat (- n)) +:+ ds
  else
    let e := (n - 1)%Z in
    let ex := (if (e <? 0)%Z then "-" else "+") +:+ digitsOfZ (Z.abs e) in
    if (k =? 1)%Z then ds +:+ "e" +:+ ex
    else Str.take 1 ds +:+ "." +:+ String.substring 1 (Z.to_nat (k - 1)) ds +:+ "e" +:+ ex.

Definition toString (x : number) : string :=
  match x with
  | S754_nan => "NaN"
  | S754_zero _ => "0"
  | S754_infinity s => if s then "-Infinity" else "Infinity"
  | S754_finite s m e =>
      (if s then "-" else EmptyString) +:+ formatDigits (shortest m e)
  end.

End Num.

(** ** The data of the parser *)

(** A decoded value: a number or a text. *)
Inductive jsval : Type :=
  | VNum (n : Num.number)
  | VStr (s : string).

(** [v.toString()]. *)
Definition valueToString (v : jsval) : string :=
  match v with
  | VNum n => Num.toString n
  | VStr s => s
  end.

(** [a || b] on optional strings. *)
Definition orDefault (a : option string) (b : string) : option string :=
  if truthy a then a else Some b.

Module Fact.
Record t : Type := Build {
  namespace : string;
  concept : string;
  value : jsval;
  valueRaw : string;
  contextRef : string;
  unitRef : option string;
  decimals : option string;
  scale : option string;
  fullTag : string;
  factType : string
}.
End Fact.

Module Period.
Record t : Type := Build {
  type : string;
  startDate : option string;
  endDate : option string;
  instant : option string
}.
End Period.

Module Entity.
Record t : Type := Build {
  identifier : option string
}.
End Entity.

Module Context.
Record t : Type := Build {
  id : string;
  period : Period.t;
  entity : Entity.t;
  dimensions : gmap string string
}.
End Context.

(** The search criteria.  [value] is a string, as the documentation of
    [findDimensionalFacts] and the schema of the tool declare it; the two
    bounds of a range are numbers. *)
Module Criteria.
Record range : Type := Range {
  min : Num.number;
  max : Num.number
}.
Record t : Type := Build {
  concept : option string;
  value : option string;
  valueRange : option range;
  dimensions : option (gmap string string)
}.
End Criteria.

(** A matched fact: the fact and what its context adds to it. *)
Module Matched.
Record t : Type := Build {
  fact : Fact.t;
  context : Context.t;
  period : Period.t;
  periodType : string;
  periodStart : option string;
  periodEnd : option string;
  dimensions : gmap string string
}.
End Matched.

(** A group that takes part in every match of its pattern. *)
Definition group (i : nat) (m : mresult) : string :=
  default EmptyString (capture i m).

(** ** The annotation extractor *)

(** [parseNumericValue]. *)
Definition parseNumericValue (value : string) (scale : option string) : Num.number :=
  let parsed := Num.parseFloat (Str.removeCommas value) in
  let numValue := if Num.truthy parsed then parsed else Num.zero in
  match scale with
  | Some (String _ _ as sc) => Num.mul numValue (Num.pow10 (Num.parseInt sc))
  | _ => numValue
  end.

Definition nonFractionFact (m : mresult) : Fact.t :=
  let name := group 1 m in
  let contextRef := group 2 m in
  let unitRef := capture 3 m in
  let decimals := capture 4 m in
  let scale := capture 5 m in
  let value := group 6 m in
  let (namespace, localName) := parseXbrlName name in
  let numericValue := parseNumericValue value scale in
  Fact.Build namespace localName (VNum numericValue) value contextRef
             (orDefault unitRef "USD") decimals scale name "nonFraction".

Definition fractionFact (m : mresult) : Fact.t :=
  let name := group 1 m in
  let contextRef := group 2 m in
  let value := group 3 m in
  let (namespace, localName) := parseXbrlName name in
  let parsed := Num.parseFloat value in
  Fact.Build namespace localName
             (if Num.truthy parsed then VNum parsed else VStr value)
             value contextRef (Some "pure") None None name "fraction".

Definition nonNumericFact (m : mresult) : Fact.t :=
  let name := group 1 m in
  let contextRef := group 2 m in
  let value := group 3 m in
  let (namespace, localName) := parseXbrlName name in
  Fact.Build namespace localName (VStr (Str.trim value)) value contextRef
             None None None name "nonNumeric".

(** [extractFactsFromIxbrl]: the three patterns in turn, each over the whole
    markup. *)
Definition extractFactsFromIxbrl (htmlContent : string) : list Fact.t :=
  List.map nonFractionFact (execAll nonFractionPattern htmlContent)
  ++ List.map fractionFact (execAll fractionPattern htmlContent)
  ++ List.map nonNumericFact (execAll nonNumericPattern htmlContent).

(** ** The context resolver *)

(** [extractPeriodFromContext]. *)
Definition extractPeriodFromContext (contextContent : string) : Period.t :=
  let instantMatch := matchFirst (element "instant") contextContent in
  let startDateMatch := matchFirst (element "startDate") contextContent in
  let endDateMatch := matchFirst (element "endDate") contextContent in
  match instantMatch with
  | Some i => Period.Build "instant" None None (Some (group 1 i))
  | None =>
      match startDateMatch, endDateMatch with
      | Some s, Some e =>
          Period.Build "duration" (Some (group 1 s)) (Some (group 1 e)) None
      | _, _ => Period.Build "unknown" None None None
      end
  end.

(** [extractEntityFromContext]. *)
Definition extractEntityFromContext (contextContent : string) : Entity.t :=
  match matchFirst identifierPattern contextContent with
  | Some m => Entity.Build (Some (group 1 m))
  | None => Entity.Build None
  end.

(** [extractDimensionsFromContext]: each member is stored under its axis, a
    later one over an earlier one. *)
Definition extractDimensionsFromContext (contextContent : string) : gmap string string :=
  foldl (fun dimensions m => <[group 1 m := group 2 m]> dimensions) ∅
        (execAll memberPattern contextContent).

(** The record that one match of a context pattern yields. *)
Definition contextRecord (m : mresult) : Context.t :=
  let contextId := group 1 m in
  let contextContent := group 2 m in
  Context.Build contextId
                (extractPeriodFromContext contextContent)
                (extractEntityFromContext contextContent)
                (extractDimensionsFromContext contextContent).

Definition storeContext (contexts : gmap string Context.t) (m : mresult) :
    gmap string Context.t :=
  <[group 1 m := contextRecord m]> contexts.

(** The matches in the order in which [extractContextsFromIxbrl] handles
    them: the blocks of the inline vocabulary, then those of the legacy
    one, each in the order of the document. *)
Definition contextMatches (htmlContent : string) : list mresult :=
  execAll contextPattern htmlContent ++ execAll xbrliContextPattern htmlContent.

(** [extractContextsFromIxbrl]: the two loops, over one object. *)
Definition extractContextsFromIxbrl (htmlContent : string) : gmap string Context.t :=
  let contexts := foldl storeContext ∅ (execAll contextPattern htmlContent) in
  foldl storeContext contexts (execAll xbrliContextPattern htmlContent).

(** ** The fact matcher *)

(** The concept check: skipped when [criteria.concept] is falsy. *)
Definition conceptCheck (criteria : Criteria.t) (fact : Fact.t) : bool :=
  match Criteria.concept criteria with
  | Some (String _ _ as c) =>
      Str.includes (Str.toLowerCase (Fact.concept fact)) (Str.toLowerCase c)
  | _ => true
  end.

(** The exact-value check: skipped when [criteria.value] is falsy. *)
Definition valueCheck (criteria : Criteria.t) (fact : Fact.t) : bool :=
  match Criteria.value criteria with
  | Some (String _ _ as v) => String.eqb (valueToString (Fact.value fact)) v
  | _ => true
  end.

(** The number that the range check reads from a value:
    [typeof v === 'number' ? v : parseFloat(v)]. *)
Definition numValue (v : jsval) : Num.number :=
  match v with
  | VNum n => n
  | VStr s => Num.parseFloat s
  end.

(** The range check. *)
Definition rangeCheck (criteria : Criteria.t) (fact : Fact.t) : bool :=
  match Criteria.valueRange criteria with
  | Some r =>
      let n := numValue (Fact.value fact) in
      negb (Num.isNaN n || Num.ltb n (Criteria.min r) || Num.ltb (Criteria.max r) n)
  | None => true
  end.

(** One axis of the dimensional check: the context has a non-empty member
    for the axis, and the member contains the wanted text, letter case
    apart. *)
Definition axisCheck (context : Context.t) (dimName dimValue : string) : bool :=
  match Context.dimensions context !! dimName with
  | Some (String _ _ as member) =>
      Str.includes (Str.toLowerCase member) (Str.toLowerCase dimValue)
  | _ => false
  end.

(** The dimensional check: every entry of [criteria.dimensions]. *)
Definition dimensionCheck (criteria : Criteria.t) (context : Context.t) : bool :=
  match Criteria.dimensions criteria with
  | Some dims =>
      forallb (fun '(dimName, dimValue) => axisCheck context dimName dimValue)
              (map_to_list dims)
  | None => true
  end.

Definition orElseString (a b : option string) : option string :=
  if truthy a then a else b.

Definition enrich (fact : Fact.t) (context : Context.t) : Matched.t :=
  let p := Context.period context in
  Matched.Build fact context p (Period.type p)
                (orElseString (Period.startDate p) (Period.instant p))
                (orElseString (Period.endDate p) (Period.instant p))
                (Context.dimensions context).

(** The body of the loop of [findDimensionalFacts] for one fact: [None]
    where the source says [continue], the matched fact where it pushes. *)
Definition matchFact (contexts : gmap string Context.t) (criteria : Criteria.t)
    (fact : Fact.t) : option Matched.t :=
  if negb (conceptCheck criteria fact) then None
  else if negb (valueCheck criteria fact) then None
  else if negb (rangeCheck criteria fact) then None
  else match contexts !! Fact.contextRef fact with
       | None => None
       | Some context =>
           if negb (dimensionCheck criteria context) then None
           else Some (enrich fact context)
       end.

(** [findDimensionalFacts]. *)
Definition findDimensionalFacts (facts : list Fact.t)
    (contexts : gmap string Context.t) (criteria : Criteria.t) : list Matched.t :=
  omap (matchFact contexts criteria) facts.

(** ** The runs of a pattern

    [run ci r x y]: the pattern [r] can take the state [x] to the state [y].
    The relation says which results are possible; the matcher picks the
    first one in the order of its backtracking. *)

Inductive run (ci : bool) : regex -> mstate -> mstate -> Prop :=
  | run_lit s x t :
      Str.stripPrefix (charEq ci) s (rest x) = Some t ->
      run ci (Lit s) x (MState t (caps x))
  | run_cls c x a t :
      rest x = String a t -> clsMatch ci c a = true ->
      run ci (Cls c) x (MState t (caps x))
  | run_seq r1 r2 x y z :
      run ci r1 x y -> run ci r2 y z -> run ci (Seq r1 r2) x z
  | run_star_stop g r x :
      run ci (Star g r) x x
  | run_star_step g r x y z :
      run ci r (clearCaps (groups r) x) y -> run ci (Star g r) y z ->
      run ci (Star g r) x z
  | run_opt_skip r x :
      run ci (Opt r) x x
  | run_opt_take r x y :
      run ci r (clearCaps (groups r) x) y ->
      run ci (Opt r) x y
  | run_grp i r x y :
      run ci r x y ->
      run ci (Grp i r) x (MState (rest y) (setCap i (Some (consumed x y)) (caps y))).

(** [found re s m]: [m] is a match of [re] somewhere in [s], by some run
    of the pattern from fresh captures. *)
Definition found (re : regexp) (s : string) (m : mresult) : Prop :=
  exists (pre : string) (y : mstate),
    s = pre +:+ fullMatch m +:+ after m /\
    run (ignoreCase re) (source re)
        (MState (fullMatch m +:+ after m) (replicate (S (ngroups re)) None)) y /\
    captures m = caps y /\ after m = rest y.

(** A pattern that starts with a literal of at least one character. *)
Definition literalHead (re : regexp) : Prop :=
  exists c l rs, source re = seqs (Lit (String c l) :: rs).

(** [hasAttr name s]: the markup [s] gives the attribute [name] a value
    that is not empty: it has [name='] (letter case apart) with a character
    other than the closing quote after it. *)
Fixpoint hasAttr (name : string) (s : string) : bool :=
  match Str.stripPrefix (charEq true) (dq (name +:+ "='")) s with
  | Some (String c _) => negb (Char.eqb c dquote)
  | _ => false
  end
  || match s with
     | String _ t => hasAttr name t
     | EmptyString => false
     end.

(** ** The checks in the words of the specification *)

(** The range check as the specification words it: the decoded value is a
    number, and it lies between the two bounds, both included. *)
Definition specRangeCheck (r : Criteria.range) (v : jsval) : bool :=
  match v with
  | VNum n => Num.leb (Criteria.min r) n && Num.leb n (Criteria.max r)
  | VStr _ => false
  end.

(** The lenient default as the specification words it, for the two numeric
    kinds alike: a text that is not a number decodes to zero. *)
Definition specLenientZero (fact : Fact.t) : Prop :=
  Num.isNaN (Num.parseFloat (Str.removeCommas (Fact.valueRaw fact))) = true ->
  Fact.value fact = VNum Num.zero.

(** ** The markers of a context block *)

(** [elementAt tag d s]: the text [s] starts with the element [tag] around
    the text [d], which has no [<]. *)
Definition elementAt (tag d s : string) : Prop :=
  Str.count "<" d = 0 /\
  exists post, s = openTag tag +:+ d +:+ closeTag tag +:+ post.

(** [hasElement tag s]: the element [tag] occurs in [s]. *)
Definition hasElement (tag s : string) : Prop :=
  exists pre t d, s = pre +:+ t /\ elementAt tag d t.

(** [firstElement tag d s]: the leftmost element [tag] of [s] is around the
    text [d]. *)
Definition firstElement (tag d s : string) : Prop :=
  exists pre t,
    s = pre +:+ t /\ elementAt tag d t /\
    forall pre' t' d',
      s = pre' +:+ t' -> String.length pre' < String.length pre ->
      ~ elementAt tag d' t'.

(** The greedy star of a class, unfolded along the text: the longest run
    first, then the shorter ones. *)
Fixpoint starCls (ci : bool) (c : cclass) (s : string)
    (cs : list (option string)) (k : cont) : option mstate :=
  match s with
  | String a t =>
      if clsMatch ci c a
      then orElse (starCls ci c t cs k) (fun _ => k (MState s cs))
      else k (MState s cs)
  | EmptyString => k (MState s cs)
  end.

(** The class holds for every character of a text. *)
Fixpoint allCls (ci : bool) (c : cclass) (d : string) : bool :=
  match d with
  | String a t => clsMatch ci c a && allCls ci c t
  | EmptyString => true
  end.

(** The class fails at the head of a text, or the text is empty. *)
Definition stopsCls (ci : bool) (c : cclass) (t : string) : bool :=
  match t with
  | String a _ => negb (clsMatch ci c a)
  | EmptyString => true
  end.

(** The numeric-fraction pattern in two parts: up to the optional group of
    [decimals], and from the [[^>]*] in front of the optional group of
    [scale]. *)
Definition nonFractionFront : list regex :=
  [Lit "<ix:nonFraction"; notGt; attr "name" 1; notGt; attr "contextRef" 2; notGt;
   Opt (attr "unitRef" 3); notGt; Opt (attr "decimals" 4)].

Definition nonFractionBack : list regex :=
  [Opt (attr "scale" 5); notGt; Lit ">"; Grp 6 notLt; Lit "</ix:nonFraction>"].

(** ** Sample markup *)

(** A share count, without a unit. *)
Definition sharesMarkup : string :=
  dq "<p><ix:nonFraction name='dei:EntityCommonStockSharesOutstanding' contextRef='c1' decimals='0'>2,406</ix:nonFraction></p>".

Definition noMatch : mresult := MResult 0 EmptyString [] EmptyString.

Definition sharesMatch : mresult :=
  hd noMatch (execAll nonFractionPattern sharesMarkup).

(** Scenario A of the specification: one revenue annotation with the scale
    6 and the text 638, and its context with a geographical member. *)
Definition scenarioA : string :=
  dq ("<ix:nonFraction name='us-gaap:Revenue' contextRef='c1' scale='6'>638</ix:nonFraction>"
      +:+ "<xbrli:context id='c1'><xbrli:entity>"
      +:+ "<xbrli:identifier scheme='http://www.sec.gov/CIK'>0000200406</xbrli:identifier>"
      +:+ "<xbrli:segment><xbrldi:explicitMember dimension='srt:StatementGeographicalAxis'>"
      +:+ "us-gaap:NonUsMember</xbrldi:explicitMember></xbrli:segment></xbrli:entity>"
      +:+ "<xbrli:period><xbrli:startDate>2025-01-01</xbrli:startDate>"
      +:+ "<xbrli:endDate>2025-03-30</xbrli:endDate></xbrli:period></xbrli:context>").

(** The criteria of scenario A: the concept [revenue] and the range from
    600000000 to 700000000. *)
Definition criteriaA : Criteria.t :=
  Criteria.Build (Some "revenue") None
    (Some (Criteria.Range (Num.ofZ 600000000) (Num.ofZ 700000000))) None.

(** A ratio whose text is not a number, and a note in free text. *)
Definition ratioMarkup : string :=
  dq "<ix:fraction name='us-gaap:PayoutRatio' contextRef='c1'>n/a</ix:fraction>".

Definition noteMarkup : string :=
  dq "<ix:nonNumeric name='dei:Headcount' contextRef='c1'> 650 employees </ix:nonNumeric>".

Definition geoAxis : string := "srt:StatementGeographicalAxis".

Definition sampleContext : Context.t :=
  Context.Build "c1"
    (Period.Build "duration" (Some "2025-01-01") (Some "2025-03-30") None)
    (Entity.Build (Some "0000200406"))
    {[ geoAxis := "us-gaap:NonUsMember" ]}.

Definition sampleContexts : gmap string Context.t := {[ "c1" := sampleContext ]}.

Definition revenueFact : Fact.t :=
  Fact.Build "us-gaap" "Revenue" (VNum (Num.ofZ 638)) "638" "c1"
             (Some "USD") None None "us-gaap:Revenue" "nonFraction".


Definition noteFact : Fact.t :=
  Fact.Build "dei" "Headcount" (VStr "650 employees") " 650 employees " "c1"
             None None None "dei:Headcount" "nonNumeric".


Definition geoDims : gmap string string := {[ geoAxis := "nonus" ]}.

Definition geoCriteria : Criteria.t := Criteria.Build None None None (Some geoDims).

Definition exactCriteria : Criteria.t := Criteria.Build None (Some "638") None None.

(** The text of the note as an exact value, and a range around 650. *)
Definition noteCriteria : Criteria.t :=
  Criteria.Build None (Some "650 employees")
    (Some (Criteria.Range (Num.ofZ 600) (Num.ofZ 700))) None.

(** Two blocks that declare the context [c1]: an instant in the inline
    vocabulary, a duration in the legacy one. *)
Definition duplicateMarkup : string :=
  dq ("<ix:context id='c1'><xbrli:period><xbrli:instant>2024-12-29</xbrli:instant>"
      +:+ "</xbrli:period></ix:context>"
      +:+ "<xbrli:context id='c1'><xbrli:period><xbrli:startDate>2025-01-01</xbrli:startDate>"
      +:+ "<xbrli:endDate>2025-03-30</xbrli:endDate></xbrli:period></xbrli:context>").

Definition duplicateFirst : mresult := nth 0 (contextMatches duplicateMarkup) noMatch.
Definition duplicateLast : mresult := nth 1 (contextMatches duplicateMarkup) noMatch.

(** The same two blocks, the legacy one first in the document. *)
Definition duplicateMarkupLegacyFirst : string :=
  dq ("<xbrli:context id='c1'><xbrli:period><xbrli:startDate>2025-01-01</xbrli:startDate>"
      +:+ "<xbrli:endDate>2025-03-30</xbrli:endDate></xbrli:period></xbrli:context>"
      +:+ "<ix:context id='c1'><xbrli:period><xbrli:instant>2024-12-29</xbrli:instant>"
      +:+ "</xbrli:period></ix:context>").

(** A period with a start date and no end date. *)
Definition openPeriod : string :=
  "<xbrli:period><xbrli:startDate>2025-01-01</xbrli:startDate></xbrli:period>".

(** ** The legacy documents *)

(** [extractContextsFromXml]: the loop over the blocks of the legacy
    vocabulary alone. *)
Definition extractContextsFromXml (xmlContent : string) : gmap string Context.t :=
  foldl storeContext ∅ (execAll xbrliContextPattern xmlContent).

(** ** The documents of a filing index *)

(** [<a[^>]*href='([^']*\.htm)'[^>]*>], flags [gi]. *)
Definition htmLinkPattern : regexp :=
  RegExp (seqs [Lit "<a"; notGt; Lit (dq "href='");
                Grp 1 (Seq notQuote (Lit ".htm")); Lit (dq "'"); notGt; Lit ">"])
         1 true.

(** [href='([^']*\.htm)'], flag [i]. *)
Definition hrefPattern : regexp :=
  RegExp (seqs [Lit (dq "href='"); Grp 1 (Seq notQuote (Lit ".htm")); Lit (dq "'")])
         1 true.

(** [findCompanySpecificPatterns]: the links of the index to a [.htm] file,
    in the order of the index, without those that the four tests take for
    an exhibit or a table. *)
Definition findCompanySpecificPatterns (indexHtml : string) : list string :=
  let htmMatches := List.map fullMatch (execAll htmLinkPattern indexHtml) in
  foldl (fun patterns link =>
           match matchFirst hrefPattern link with
           | Some filenameMatch =>
               let filename := group 1 filenameMatch in
               if negb (Str.includes filename "ex")
                  && negb (Str.includes filename "exhibit")
                  && negb (Str.includes filename "table")
                  && (String.length filename <? 50)%nat
               then (patterns ++ [filename])%list
               else patterns
           | None => patterns
           end)
        [] htmMatches.

(** ** The document of a filing, parsed and searched

    [parseXbrlInstance] downloads a document and parses it, and
    [getDimensionalFacts] finds the address of the document before that and
    searches the parsed data after it.  The download is the input here:
    the two functions are modelled from the content of the document on. *)

Module XbrlData.
Record t : Type := Build {
  facts : list Fact.t;
  contexts : gmap string Context.t
}.
End XbrlData.

Definition parseXbrlInstance (htmlContent : string) : XbrlData.t :=
  let facts := extractFactsFromIxbrl htmlContent in
  let contexts := extractContextsFromIxbrl htmlContent in
  XbrlData.Build facts contexts.

Module DimensionalFacts.
Record t : Type := Build {
  matchingFacts : list Matched.t;
  totalFacts : nat;
  totalContexts : nat
}.
End DimensionalFacts.

Definition getDimensionalFacts (htmlContent : string) (criteria : Criteria.t) :
    DimensionalFacts.t :=
  let xbrlData := parseXbrlInstance htmlContent in
  let matchingFacts :=
    findDimensionalFacts (XbrlData.facts xbrlData) (XbrlData.contexts xbrlData) criteria in
  DimensionalFacts.Build matchingFacts
                         (length (XbrlData.facts xbrlData))
                         (size (XbrlData.contexts xbrlData)).

(** ** The filter of the filings ([edgar-api.js]) *)

Module StrOrder.

(** [a < b] on strings: the order of the code units, a proper prefix
    before the longer string. *)
Definition ltb (a b : string) : bool :=
  match String.compare a b with
  | Lt => true
  | _ => false
  end.

Definition geb (a b : string) : bool := negb (ltb a b).   (* a >= b *)
Definition leb (a b : string) : bool := negb (ltb b a).   (* a <= b *)

End StrOrder.

(** [ToIntegerOrInfinity] of a number that is no infinity: 0 for NaN and
    for the zeros, and a finite number without its fraction. *)
Definition truncate (x : Num.number) : Z :=
  match x with
  | S754_finite s m e =>
      let a := if (0 <=? e)%Z then (Zpos m * 2 ^ e)%Z else (Zpos m / 2 ^ (- e))%Z in
      if s then (- a)%Z else a
  | _ => 0%Z
  end.

(** [a.slice(0, end)]: a negative end counts from the end of the array. *)
Definition sliceTo {A : Type} (finish : Num.number) (a : list A) : list A :=
  match finish with
  | S754_infinity false => a
  | S754_infinity true => []
  | _ =>
      let k := truncate finish in
      if (k <? 0)%Z then take (Z.to_nat (Z.of_nat (length a) + k)) a
      else take (Z.to_nat k) a
  end.

(** A filing, with the fields that the filter and its callers read; a
    field that the object lacks is [None]. *)
Module Filing.
Record t : Type := Build {
  accessionNumber : string;
  filingDate : option string;
  form : option string;
  primaryDocument : string
}.
End Filing.

Module Filters.
Record t : Type := Build {
  formType : option string;
  startDate : option string;
  endDate : option string;
  limit : option Num.number
}.
End Filters.

(** [filterFilings]: each filter that is set (truthy) is applied in turn,
    and a limit above zero cuts the result. *)
Definition filterFilings (filings : list Filing.t) (filters : Filters.t) : list Filing.t :=
  let filtered := filings in
  let filtered :=
    match Filters.formType filters with
    | Some (String _ _ as formType) =>
        List.filter (fun filing =>
                       match Filing.form filing with
                       | Some (String _ _ as form) =>
                           Str.includes (Str.toLowerCase form) (Str.toLowerCase formType)
                       | _ => false
                       end) filtered
    | _ => filtered
    end in
  let filtered :=
    match Filters.startDate filters with
    | Some (String _ _ as startDate) =>
        List.filter (fun filing =>
                       match Filing.filingDate filing with
                       | Some (String _ _ as filingDate) => StrOrder.geb filingDate startDate
                       | _ => false
                       end) filtered
    | _ => filtered
    end in
  let filtered :=
    match Filters.endDate filters with
    | Some (String _ _ as endDate) =>
        List.filter (fun filing =>
                       match Filing.filingDate filing with
                       | Some (String _ _ as filingDate) => StrOrder.leb filingDate endDate
                       | _ => false
                       end) filtered
    | _ => filtered
    end in
  match Filters.limit filters with
  | Some limit =>
      if Num.truthy limit && Num.ltb Num.zero limit
      then sliceTo limit filtered
      else filtered
  | None => filtered
  end.

(** ** The filters as a predicate *)

(** [passes filters filing]: the filing meets every filter that is set. *)
Definition passes (filters : Filters.t) (filing : Filing.t) : Prop :=
  (forall formType, Filters.formType filters = Some formType -> formType <> EmptyString ->
     exists form, Filing.form filing = Some form /\
       Str.includes (Str.toLowerCase form) (Str.toLowerCase formType) = true)
  /\
  (forall startDate, Filters.startDate filters = Some startDate -> startDate <> EmptyString ->
     exists filingDate, Filing.filingDate filing = Some filingDate /\
       StrOrder.ltb filingDate startDate = false)
  /\
  (forall endDate, Filters.endDate filters = Some endDate -> endDate <> EmptyString ->
     exists filingDate, Filing.filingDate filing = Some filingDate /\
       filingDate <> EmptyString /\ StrOrder.ltb endDate filingDate = false).

(** The same as a test, and the cut that the limit makes. *)
Definition passesb (filters : Filters.t) (filing : Filing.t) : bool :=
  match Filters.formType filters with
  | Some (String _ _ as formType) =>
      match Filing.form filing with
      | Some (String _ _ as form) =>
          Str.includes (Str.toLowerCase form) (Str.toLowerCase formType)
      | _ => false
      end
  | _ => true
  end
  && match Filters.startDate filters with
     | Some (String _ _ as startDate) =>
         match Filing.filingDate filing with
         | Some (String _ _ as filingDate) => StrOrder.geb filingDate startDate
         | _ => false
         end
     | _ => true
     end
  && match Filters.endDate filters with
     | Some (String _ _ as endDate) =>
         match Filing.filingDate filing with
         | Some (String _ _ as filingDate) => StrOrder.leb filingDate endDate
         | _ => false
         end
     | _ => true
     end.

Definition cut {A : Type} (filters : Filters.t) (l : list A) : list A :=
  match Filters.limit filters with
  | Some limit =>
      if Num.truthy limit && Num.ltb Num.zero limit then sliceTo limit l else l
  | None => l
  end.

Definition withoutLimit (filters : Filters.t) : Filters.t :=
  Filters.Build (Filters.formType filters) (Filters.startDate filters)
                (Filters.endDate filters) None.

(** ** Texts of digits *)

Fixpoint allChars (p : ascii -> bool) (s : string) : bool :=
  match s with
  | String c t => p c && allChars p t
  | EmptyString => true
  end.

(** A digit or a comma. *)
Definition digitOrComma (c : ascii) : bool := Char.isDigit c || Char.eqb c ",".

(** ** The classes of the fact table ([edgar-api.js]) *)

(** [classifyFact], on a matched fact: its concept, and the dimensions
    that its context gave it. *)
Definition classifyFact (fact : Matched.t) : string :=
  match Fact.concept (Matched.fact fact) with
  | EmptyString => "Unknown"
  | String _ _ as name =>
      let concept := Str.toLowerCase name in
      let dimensions := Matched.dimensions fact in
      let hasDimensions := (0 <? size dimensions)%nat in
      if Str.includes concept "revenue" then
        if hasDimensions && truthy (dimensions !! "us-gaap:SubsegmentsAxis")
        then "Subsegment Revenue"
        else if hasDimensions
                && truthy (dimensions !! "us-gaap:StatementBusinessSegmentsAxis")
        then "Segment Revenue"
        else if hasDimensions
                && (truthy (dimensions !! "srt:StatementGeographicalAxis")
                    || truthy (dimensions !! "us-gaap:StatementGeographicalAxis"))
        then "Geographic Revenue"
        else "Total Revenue"
      else if Str.includes concept "cost" then "Cost"
      else if Str.includes concept "expense" then "Expense"
      else if Str.includes concept "income" then "Income"
      else if Str.includes concept "asset" then "Asset"
      else if Str.includes concept "liability" then "Liability"
      else if Str.includes concept "equity" then "Equity"
      else "Other Financial"
  end.

(** The four axes that [classifyFact] looks at. *)
Definition classAxes : list string :=
  ["us-gaap:SubsegmentsAxis"; "us-gaap:StatementBusinessSegmentsAxis";
   "srt:StatementGeographicalAxis"; "us-gaap:StatementGeographicalAxis"].

(** The links of a filing index: the report, an exhibit, and the index
    itself. *)
Definition indexMarkup : string :=
  dq ("<a href='jnj-20250330.htm'>10-Q</a>"
      +:+ "<a href='jnj-20250330xex31.htm'>EX-31</a>"
      +:+ "<a href='0000200406-25-000119-index.htm'>index</a>").

(** The entity of a context block. *)
Definition entityMarkup : string :=
  dq "<xbrli:entity><xbrli:identifier scheme='http://www.sec.gov/CIK'>0000200406</xbrli:identifier></xbrli:entity>".

(** Three filings, the latest first, as the submissions of a company list
    them. *)
Definition quarterly2025 : Filing.t :=
  Filing.Build "0000200406-25-000119" (Some "2025-04-23") (Some "10-Q") "jnj-20250330.htm".

Definition annual2024 : Filing.t :=
  Filing.Build "0000200406-25-000038" (Some "2025-02-13") (Some "10-K") "jnj-20241229.htm".

Definition quarterly2024 : Filing.t :=
  Filing.Build "0000200406-24-000071" (Some "2024-10-22") (Some "10-Q") "jnj-20240929.htm".

Definition sampleFilings : list Filing.t := [quarterly2025; annual2024; quarterly2024].

(** The quarterly reports of 2025, at most two of them. *)
Definition quarterlyFilters : Filters.t :=
  Filters.Build (Some "10-q") (Some "2025-01-01") (Some "2025-12-31") (Some (Num.ofZ 2)).

(** The concept of scenario A alone. *)
Definition criteriaA0 : Criteria.t := Criteria.Build (Some "revenue") None None None.

(** * Properties *)

(** ** Strings *)

Section StringFacts.

Lemma app_cons_str (x : ascii) (a b : string) :
  String x a +:+ b = String x (a +:+ b).
Proof. reflexivity. Qed.

Lemma app_nil_l_str (a : string) : EmptyString +:+ a = a.
Proof. reflexivity. Qed.

Lemma app_assoc_str (a b c : string) : (a +:+ b) +:+ c = a +:+ (b +:+ c).
Proof.
  induction a as [|x a IH]; [reflexivity|].
  rewrite !app_cons_str. simpl. f_equal. exact IH.
Qed.

Lemma app_nil_r_str (a : string) : a +:+ EmptyString = a.
Proof.
  induction a as [|x a IH]; [reflexivity|].
  rewrite !app_cons_str. simpl. f_equal. exact IH.
Qed.

Lemma length_app_str (a b : string) :
  String.length (a +:+ b) = String.length a + String.length b.
Proof.
  induction a as [|x a IH]; [reflexivity|].
  rewrite !app_cons_str. simpl. f_equal. exact IH.
Qed.

Lemma take_app_str (a b : string) : Str.take (String.length a) (a +:+ b) = a.
Proof.
  induction a as [|x a IH]; [now destruct b|].
  rewrite app_cons_str. simpl. f_equal. exact IH.
Qed.

Lemma take_app_length (a b : string) :
  Str.take (String.length (a +:+ b) - String.length b) (a +:+ b) = a.
Proof.
  rewrite length_app_str.
  replace (String.length a + String.length b - String.length b) with (String.length a) by lia.
  apply take_app_str.
Qed.

Lemma app_inv_length (a b c d : string) :
  a +:+ b = c +:+ d -> String.length a = String.length c -> a = c /\ b = d.
Proof.
  revert c. induction a as [|x a IH]; intros [|y c] E L; simpl in *; try discriminate.
  - now split.
  - rewrite !app_cons_str in E. injection E as -> E. injection L as L. destruct (IH _ E L) as [-> ->]. now split.
Qed.

Lemma app_inv_tail_str (a c b : string) : a +:+ b = c +:+ b -> a = c.
Proof.
  intros E. apply (app_inv_length a b c b E).
  apply (f_equal String.length) in E. rewrite !length_app_str in E. lia.
Qed.

(** What [stripPrefix] removes is a prefix that matches the pattern, in
    front of any text. *)
Lemma stripPrefix_app (eqc : ascii -> ascii -> bool) (p s t : string) :
  Str.stripPrefix eqc p s = Some t ->
  exists p', s = p' +:+ t /\ String.length p' = String.length p
             /\ forall u, Str.stripPrefix eqc p (p' +:+ u) = Some u.
Proof.
  revert s. induction p as [|a p IH]; intros s H; simpl in H.
  - injection H as <-. now exists EmptyString.
  - destruct s as [|b s]; [discriminate|].
    destruct (eqc a b) eqn:E; [|discriminate].
    destruct (IH _ H) as (p' & -> & L & S').
    exists (String b p'). simpl. rewrite L.
    repeat split. intros u. rewrite E. apply S'.
Qed.

Lemma stripPrefix_more (eqc : ascii -> ascii -> bool) (p s t u : string) :
  Str.stripPrefix eqc p s = Some t ->
  Str.stripPrefix eqc p (s +:+ u) = Some (t +:+ u).
Proof.
  revert s. induction p as [|a p IH]; intros s H; simpl in *.
  - now injection H as <-.
  - destruct s as [|b s]; [discriminate|]. rewrite app_cons_str. simpl.
    destruct (eqc a b); [now apply IH | discriminate].
Qed.

Lemma eqb_char_eq (a b : ascii) : Char.eqb a b = true <-> a = b.
Proof. apply Ascii.eqb_eq. Qed.

Lemma stripPrefix_exact (p s t : string) :
  Str.stripPrefix Char.eqb p s = Some t <-> s = p +:+ t.
Proof.
  revert s. induction p as [|a p IH]; intros s; simpl.
  - split; [now intros [= ->] | now intros ->].
  - rewrite app_cons_str. destruct s as [|b s]; [split; discriminate|].
    destruct (Char.eqb a b) eqn:E.
    + apply eqb_char_eq in E as ->. rewrite IH. split; [now intros -> | now intros [= ->]].
    + split; [discriminate|]. intros [= -> _].
      unfold Char.eqb in E. now rewrite Ascii.eqb_refl in E.
Qed.

(** [includes] finds exactly the substrings. *)
Lemma includes_spec (s p : string) :
  Str.includes s p = true <-> exists a b, s = a +:+ p +:+ b.
Proof.
  induction s as [|c s IH]; simpl.
  - destruct (Str.stripPrefix Char.eqb p EmptyString) eqn:E.
    + apply stripPrefix_exact in E. split; [|reflexivity].
      intros _. exists EmptyString, s. exact E.
    + split; [discriminate|]. intros (a & b & H).
      destruct a; [|discriminate]. rewrite app_nil_l_str in H.
      apply stripPrefix_exact in H. congruence.
  - destruct (Str.stripPrefix Char.eqb p (String c s)) eqn:E.
    + apply stripPrefix_exact in E. split; [|reflexivity].
      intros _. exists EmptyString, s0. exact E.
    + rewrite IH. split.
      * intros (a & b & ->). now exists (String c a), b.
      * intros (a & b & H). destruct a as [|x a].
        -- rewrite app_nil_l_str in H.
           apply stripPrefix_exact in H. congruence.
        -- rewrite app_cons_str in H. injection H as -> ->. now exists a, b.
Qed.

End StringFacts.

(** ** The matcher *)

Section MatcherFacts.

Variable ci : bool.

Lemma orElse_Some (a : option mstate) (b : unit -> option mstate) (z : mstate) :
  orElse a b = Some z -> a = Some z \/ (a = None /\ b tt = Some z).
Proof. destruct a; simpl; intros H; [left; exact H | right; now split]. Qed.

Lemma progress_Some (x : mstate) (k : cont) (y z : mstate) :
  progress x k y = Some z -> k y = Some z.
Proof. unfold progress. now destruct (_ =? _)%nat. Qed.

(** Every result of the loop of a quantifier is a run of the star. *)
Lemma repeatMatcher_sound (r : regex) (g : bool) (m : matcher) :
  (forall x k z, m x k = Some z ->
     exists y, run ci r (clearCaps (groups r) x) y /\ k y = Some z) ->
  forall fuel x k z,
    repeatMatcher m g fuel x k = Some z ->
    exists y, run ci (Star g r) x y /\ k y = Some z.
Proof.
  intros Hm. induction fuel as [|n IH]; intros x k z H; simpl in H.
  - exists x. split; [constructor | exact H].
  - assert (Hbody : m x (progress x (fun y => repeatMatcher m g n y k)) = Some z ->
                    exists y, run ci (Star g r) x y /\ k y = Some z).
    { intros Hb. apply Hm in Hb as (y & Hr & Hk).
      apply progress_Some in Hk. apply IH in Hk as (y' & Hr' & Hk').
      exists y'. split; [eapply run_star_step; eassumption | exact Hk']. }
    assert (Hstop : k x = Some z -> exists y, run ci (Star g r) x y /\ k y = Some z).
    { intros Hk. exists x. split; [constructor | exact Hk]. }
    destruct g; apply orElse_Some in H as [H | [_ H]]; auto.
Qed.

(** Soundness of the matcher: what it returns is what the continuation
    returned after some run of the pattern. *)
Lemma matchRe_sound (r : regex) :
  forall x k z, matchRe ci r x k = Some z ->
  exists y, run ci r x y /\ k y = Some z.
Proof.
  induction r as [s | c | r1 IH1 r2 IH2 | g r IH | r IH | i r IH];
    intros x k z H; simpl in H.
  - destruct (Str.stripPrefix _ _ _) as [t|] eqn:E; [|discriminate].
    exists (MState t (caps x)). split; [now constructor | exact H].
  - destruct (rest x) as [|a t] eqn:E; [discriminate|].
    destruct (clsMatch ci c a) eqn:C; [|discriminate].
    exists (MState t (caps x)). split; [now apply run_cls with a | exact H].
  - apply IH1 in H as (y & Hr1 & H). apply IH2 in H as (y' & Hr2 & H).
    exists y'. split; [eapply run_seq; eassumption | exact H].
  - eapply repeatMatcher_sound in H; [exact H|].
    intros x' k' z' H'. now apply IH in H'.
  - apply orElse_Some in H as [H | [_ H]].
    + apply IH in H as (y & Hr & H). apply progress_Some in H.
      exists y. split; [now apply run_opt_take | exact H].
    + exists x. split; [constructor | exact H].
  - apply IH in H as (y & Hr & H).
    eexists. split; [apply run_grp; exact Hr | exact H].
Qed.

(** A run consumes a prefix of the text. *)
Lemma run_rest (r : regex) (x y : mstate) :
  run ci r x y -> exists p, rest x = p +:+ rest y.
Proof.
  induction 1 as [s x t E | c x a t E C | r1 r2 x y z _ IH1 _ IH2 | g r x
                 | g r x y z _ IH1 _ IH2 | r x | r x y _ IH | i r x y _ IH]; simpl in *.
  - apply stripPrefix_app in E as (p' & -> & _). now exists p'.
  - rewrite E. now exists (String a EmptyString).
  - destruct IH1 as (p & ->), IH2 as (q & ->). exists (p +:+ q).
    now rewrite app_assoc_str.
  - now exists EmptyString.
  - destruct IH1 as (p & ->), IH2 as (q & ->). exists (p +:+ q).
    now rewrite app_assoc_str.
  - now exists EmptyString.
  - exact IH.
  - exact IH.
Qed.

Lemma run_consumed (r : regex) (x y : mstate) :
  run ci r x y -> rest x = consumed x y +:+ rest y.
Proof.
  intros H. destruct (run_rest _ _ _ H) as (p & E).
  unfold consumed. rewrite E at 2 3. now rewrite take_app_length.
Qed.

Lemma run_length (r : regex) (x y : mstate) :
  run ci r x y -> String.length (rest y) <= String.length (rest x).
Proof.
  intros H. destruct (run_rest _ _ _ H) as (p & ->). rewrite length_app_str. lia.
Qed.

End MatcherFacts.

(** ** Sequences, captures and searches *)

(** Closes a goal [~ In i (groups r)] for a closed pattern [r]. *)
Ltac no_group := vm_compute; intuition discriminate.

Section RunFacts.

Variable ci : bool.

Lemma run_empty_lit (x y : mstate) : run ci (Lit EmptyString) x y <-> x = y.
Proof.
  split.
  - inversion 1 as [s x' t E | | | | | | |]; subst. simpl in E.
    injection E as <-. now destruct x.
  - intros <-. destruct x as [s cs].
    change (run ci (Lit EmptyString) (MState s cs) (MState s (caps (MState s cs)))).
    now constructor.
Qed.

Lemma run_seqs_cons (r : regex) (l : list regex) (x z : mstate) :
  run ci (seqs (r :: l)) x z <-> exists y, run ci r x y /\ run ci (seqs l) y z.
Proof.
  destruct l as [|r' l].
  - simpl. split.
    + intros H. exists z. split; [exact H | now apply run_empty_lit].
    + intros (y & H & E). apply run_empty_lit in E. now subst.
  - change (seqs (r :: r' :: l)) with (Seq r (seqs (r' :: l))). split.
    + inversion 1; subst. eauto.
    + intros (y & H1 & H2). eapply run_seq; eassumption.
Qed.

Lemma run_seqs_app (l1 l2 : list regex) (x z : mstate) :
  run ci (seqs (l1 ++ l2)) x z <->
  exists y, run ci (seqs l1) x y /\ run ci (seqs l2) y z.
Proof.
  revert x. induction l1 as [|r l1 IH]; intros x.
  - simpl app. split.
    + intros H. exists x. split; [now apply run_empty_lit | exact H].
    + intros (y & E & H). apply run_empty_lit in E. now subst.
  - change ((r :: l1) ++ l2)%list with (r :: (l1 ++ l2))%list.
    rewrite run_seqs_cons. split.
    + intros (y & H1 & H2). apply IH in H2 as (y' & H2 & H3).
      exists y'. split; [|exact H3]. apply run_seqs_cons. eauto.
    + intros (y & H1 & H3). apply run_seqs_cons in H1 as (y' & H1 & H2).
      exists y'. split; [exact H1|]. apply IH. eauto.
Qed.

Lemma clearCaps_other (gs : list nat) (x : mstate) (i : nat) :
  ~ In i gs -> caps (clearCaps gs x) !! i = caps x !! i.
Proof.
  unfold clearCaps. simpl. induction gs as [|g gs IH]; intros H; simpl; [reflexivity|].
  unfold setCap at 1. rewrite list_lookup_insert_ne.
  - apply IH. intros ?. apply H. now right.
  - intros ->. apply H. now left.
Qed.

(** A run leaves alone the captures of the groups that the pattern does not
    have. *)
Lemma run_caps_other (r : regex) (x y : mstate) (i : nat) :
  run ci r x y -> ~ In i (groups r) -> caps y !! i = caps x !! i.
Proof.
  induction 1 as [s x t E | c x a t E C | r1 r2 x y z _ IH1 _ IH2 | g r x
                 | g r x y z _ IH1 _ IH2 | r x | r x y _ IH | j r x y _ IH];
    intros Hi; simpl in *; try reflexivity.
  - rewrite IH2, IH1; [reflexivity | |]; intros ?; apply Hi, in_or_app; auto.
  - rewrite IH2, IH1 by exact Hi. now apply clearCaps_other.
  - rewrite IH by exact Hi. now apply clearCaps_other.
  - unfold setCap. rewrite list_lookup_insert_ne; [|intros ->; apply Hi; now left].
    apply IH. intros ?. apply Hi. now right.
Qed.

Lemma matchAt_found (re : regexp) (s : string) (m : mresult) :
  matchAt re s = Some m -> found re s m.
Proof.
  unfold matchAt. intros H.
  destruct (matchRe _ _ _ _) as [y|] eqn:E; [|discriminate]. injection H as <-.
  apply matchRe_sound in E as (y' & Hr & [= ->]).
  pose proof (run_consumed _ _ _ _ Hr) as Hc. simpl in Hc.
  exists EmptyString, y. simpl. rewrite <- Hc. now repeat split.
Qed.

Lemma search_found (re : regexp) (s : string) (m : mresult) :
  search re s = Some m -> found re s m.
Proof.
  revert m. induction s as [|c s IH]; intros m H; simpl in H.
  - destruct (matchAt re EmptyString) as [m'|] eqn:E; [|discriminate].
    injection H as <-. now apply matchAt_found.
  - destruct (matchAt re (String c s)) as [m'|] eqn:E.
    + injection H as <-. now apply matchAt_found.
    + destruct (search re s) as [m'|]; [|discriminate]. injection H as <-.
      destruct (IH _ eq_refl) as (pre & y & -> & Hr & Hc & Ha).
      exists (String c pre), y. simpl. now repeat split.
Qed.

Lemma found_longer (re : regexp) (p s : string) (m : mresult) :
  found re s m -> found re (p +:+ s) m.
Proof.
  intros (pre & y & -> & H). exists (p +:+ pre), y.
  split; [now rewrite app_assoc_str | exact H].
Qed.

Lemma found_after (re : regexp) (s : string) (m : mresult) :
  found re s m -> exists p, s = p +:+ after m.
Proof.
  intros (pre & y & -> & _). exists (pre +:+ fullMatch m).
  now rewrite app_assoc_str.
Qed.

Lemma execLoop_found (re : regexp) (fuel : nat) (s : string) (m : mresult) :
  In m (execLoop fuel re s) -> found re s m.
Proof.
  revert s. induction fuel as [|n IH]; intros s H; simpl in H; [contradiction|].
  destruct (search re s) as [m'|] eqn:E; [|contradiction].
  apply search_found in E. destruct H as [<- | H]; [exact E|].
  apply IH in H. destruct (found_after _ _ _ E) as (p & ->).
  now apply found_longer.
Qed.

(** Every match that the loop of [exec] yields is a run of the pattern
    somewhere in the text. *)
Lemma execAll_found (re : regexp) (s : string) (m : mresult) :
  In m (execAll re s) -> found re s m.
Proof. apply execLoop_found. Qed.

End RunFacts.

(** ** The quantifiers need no more fuel *)

Section Adequacy.

Variable ci : bool.

Lemma stripPrefix_length (eqc : ascii -> ascii -> bool) (p s t : string) :
  Str.stripPrefix eqc p s = Some t -> String.length t <= String.length s.
Proof.
  intros H. apply stripPrefix_app in H as (p' & -> & _).
  rewrite length_app_str. lia.
Qed.

Lemma repeatMatcher_agree (m : matcher) (g : bool) :
  (forall x k1 k2,
     (forall y, String.length (rest y) <= String.length (rest x) -> k1 y = k2 y) ->
     m x k1 = m x k2) ->
  forall fuel x k1 k2,
    (forall y, String.length (rest y) <= String.length (rest x) -> k1 y = k2 y) ->
    repeatMatcher m g fuel x k1 = repeatMatcher m g fuel x k2.
Proof.
  intros Hm. induction fuel as [|n IH]; intros x k1 k2 Hk; simpl.
  - apply Hk. lia.
  - rewrite (Hk x) by lia.
    rewrite (Hm x (progress x (fun y => repeatMatcher m g n y k1))
                  (progress x (fun y => repeatMatcher m g n y k2))); [reflexivity|].
    intros y Hy. unfold progress. destruct (_ =? _)%nat; [reflexivity|].
    apply IH. intros z Hz. apply Hk. lia.
Qed.

(** A matcher calls its continuation on what is left of the text only: two
    continuations that agree there give one result. *)
Lemma matchRe_agree (r : regex) :
  forall x k1 k2,
    (forall y, String.length (rest y) <= String.length (rest x) -> k1 y = k2 y) ->
    matchRe ci r x k1 = matchRe ci r x k2.
Proof.
  induction r as [s | c | r1 IH1 r2 IH2 | g r IH | r IH | i r IH];
    intros x k1 k2 Hk; cbn [matchRe].
  - destruct (Str.stripPrefix _ _ _) as [t|] eqn:E; [|reflexivity].
    apply Hk. cbn [rest]. now apply stripPrefix_length in E.
  - destruct (rest x) as [|a t] eqn:E; [reflexivity|].
    destruct (clsMatch ci c a); [|reflexivity]. apply Hk. cbn [rest String.length]. lia.
  - apply IH1. intros y Hy. apply IH2. intros z Hz. apply Hk. lia.
  - apply repeatMatcher_agree; [|exact Hk].
    intros x' k1' k2' Hk'. apply IH. exact Hk'.
  - rewrite (Hk x) by lia.
    rewrite (IH (clearCaps (groups r) x) (progress x k1) (progress x k2)); [reflexivity|].
    intros y Hy. unfold progress. destruct (_ =? _)%nat; [reflexivity|].
    apply Hk. exact Hy.
  - apply IH. intros y Hy. apply Hk. exact Hy.
Qed.

Lemma repeatMatcher_fail (m : matcher) (g : bool) :
  (forall x k, (forall y, k y = None) -> m x k = None) ->
  forall fuel x k, (forall y, k y = None) -> repeatMatcher m g fuel x k = None.
Proof.
  intros Hm. induction fuel as [|n IH]; intros x k Hk; simpl; [apply Hk|].
  rewrite (Hk x), Hm; [now destruct g|].
  intros y. unfold progress. destruct (_ =? _)%nat; [reflexivity | now apply IH].
Qed.

(** A matcher whose continuation always fails fails. *)
Lemma matchRe_fail (r : regex) :
  forall x k, (forall y, k y = None) -> matchRe ci r x k = None.
Proof.
  induction r as [s | c | r1 IH1 r2 IH2 | g r IH | r IH | i r IH];
    intros x k Hk; cbn [matchRe].
  - destruct (Str.stripPrefix _ _ _); [apply Hk | reflexivity].
  - destruct (rest x) as [|a t]; [reflexivity|].
    destruct (clsMatch ci c a); [apply Hk | reflexivity].
  - apply IH1. intros y. now apply IH2.
  - apply repeatMatcher_fail; [|exact Hk]. intros x' k' Hk'. now apply IH.
  - rewrite (Hk x), IH; [reflexivity|].
    intros y. unfold progress. destruct (_ =? _)%nat; [reflexivity | apply Hk].
  - apply IH. intros y. apply Hk.
Qed.

(** At the end of the text an iteration can consume nothing, and the empty
    check rejects it. *)
Lemma iteration_at_end (r : regex) (x : mstate) (k : cont) :
  String.length (rest x) = 0 ->
  matchRe ci r (clearCaps (groups r) x) (progress x k) = None.
Proof.
  intros Hx.
  rewrite (matchRe_agree r _ (progress x k) (fun _ => None)).
  - now apply matchRe_fail.
  - intros y Hy. unfold progress. cbn [rest clearCaps] in Hy.
    replace (String.length (rest y) =? String.length (rest x))%nat with true;
      [reflexivity|]. symmetry. apply Nat.eqb_eq. lia.
Qed.

(** The loop of a quantifier gives one result for every fuel from the
    length of the text on. *)
Lemma repeatMatcher_fuel (r : regex) (g : bool) :
  let m := fun x' k' => matchRe ci r (clearCaps (groups r) x') k' in
  forall n1 n2 x k,
    String.length (rest x) <= n1 -> String.length (rest x) <= n2 ->
    repeatMatcher m g n1 x k = repeatMatcher m g n2 x k.
Proof.
  intros m.
  assert (Hend : forall n x k, String.length (rest x) = 0 ->
                               repeatMatcher m g n x k = k x).
  { intros [|n] x k Hx; simpl; [reflexivity|]. destruct g.
    - unfold m at 1. now rewrite (iteration_at_end r x _ Hx).
    - destruct (k x); [reflexivity|]. simpl. unfold m at 1.
      apply (iteration_at_end r x _ Hx). }
  induction n1 as [|n1 IH]; intros n2 x k H1 H2.
  - rewrite !Hend by lia. reflexivity.
  - destruct n2 as [|n2]; [rewrite !Hend by lia; reflexivity|]. simpl.
    replace (m x (progress x (fun y => repeatMatcher m g n2 y k)))
      with (m x (progress x (fun y => repeatMatcher m g n1 y k))); [reflexivity|].
    apply matchRe_agree. intros y Hy. cbn [rest clearCaps] in Hy.
    unfold progress. destruct (_ =? _)%nat eqn:E; [reflexivity|].
    apply Nat.eqb_neq in E. apply IH; lia.
Qed.

(** The equations of the star, as RepeatMatcher has them: try the body and
    go on with the star, or leave the star; the greedy star in this order,
    the lazy one in the other. *)
Lemma matchRe_star (g : bool) (r : regex) (x : mstate) (k : cont) :
  matchRe ci (Star g r) x k =
    let again := fun _ : unit =>
      matchRe ci r (clearCaps (groups r) x)
              (progress x (fun y => matchRe ci (Star g r) y k)) in
    if g then orElse (again tt) (fun _ => k x)
    else orElse (k x) again.
Proof.
  cbv zeta. cbn [matchRe].
  set (m := fun x' k' => matchRe ci r (clearCaps (groups r) x') k').
  assert (Hbody : forall n, String.length (rest x) <= S n ->
            m x (progress x (fun y => repeatMatcher m g n y k))
            = m x (progress x (fun y => repeatMatcher m g (String.length (rest y)) y k))).
  { intros n Hn. apply matchRe_agree. intros y Hy. cbn [rest clearCaps] in Hy.
    unfold progress. destruct (_ =? _)%nat eqn:E; [reflexivity|].
    apply Nat.eqb_neq in E. apply (repeatMatcher_fuel r g); lia. }
  destruct (String.length (rest x)) as [|n] eqn:Hx.
  - simpl. destruct g.
    + now rewrite (iteration_at_end r x _ Hx).
    + destruct (k x); [reflexivity|]. simpl. now rewrite (iteration_at_end r x _ Hx).
  - simpl. rewrite (Hbody n) by lia. reflexivity.
Qed.

End Adequacy.

(** ** Attributes *)

Section AttributeFacts.

Lemma clearCaps_length (gs : list nat) (x : mstate) :
  length (caps (clearCaps gs x)) = length (caps x).
Proof.
  unfold clearCaps. simpl.
  induction gs as [|g gs IH]; simpl; [reflexivity|].
  unfold setCap at 1. now rewrite length_insert.
Qed.

Lemma run_caps_length (ci : bool) (r : regex) (x y : mstate) :
  run ci r x y -> length (caps y) = length (caps x).
Proof.
  pose proof clearCaps_length as Hc.
  induction 1 as [s x t E | c x a t E C | r1 r2 x y z _ IH1 _ IH2 | g r x
                 | g r x y z _ IH1 _ IH2 | r x | r x y _ IH | j r x y _ IH];
    simpl in *; try reflexivity.
  - congruence.
  - now rewrite IH2, IH1, Hc.
  - now rewrite IH, Hc.
  - unfold setCap. now rewrite length_insert.
Qed.

(** What [[^']*] consumes is empty or starts with a character other than
    the quote. *)
Lemma run_notQuote_head (x y : mstate) :
  run true notQuote x y ->
  consumed x y = EmptyString \/
  exists c w, consumed x y = String c w /\ c <> dquote.
Proof.
  unfold notQuote. inversion 1 as [| | | g r x' | g r x' y' z' H1 H2 | | |]; subst.
  - left. unfold consumed. now rewrite Nat.sub_diag.
  - right. inversion H1 as [| c x' a t E C | | | | | |]; subst. simpl in *.
    apply run_length in H2. simpl in H2.
    unfold consumed. rewrite E. simpl String.length.
    replace (S (String.length t) - String.length (rest y))
      with (S (String.length t - String.length (rest y))) by lia.
    simpl. eexists _, _. split; [reflexivity|].
    intros ->. vm_compute in C. discriminate.
Qed.

(** A run of [name='([^']* )'] reads the name, the value and a quote, and
    stores the value in its group. *)
Lemma run_attr (name : string) (i : nat) (x y : mstate) :
  run true (attr name i) x y ->
  i < length (caps x) ->
  exists U v q,
    rest x = U +:+ v +:+ q +:+ rest y /\
    (forall u, Str.stripPrefix (charEq true) (dq (name +:+ "='")) (U +:+ u) = Some u) /\
    (v = EmptyString \/ exists c w, v = String c w /\ c <> dquote) /\
    caps y !! i = Some (Some v).
Proof.
  unfold attr. intros H Hi.
  apply run_seqs_cons in H as (x1 & H1 & H).
  apply run_seqs_cons in H as (x2 & H2 & H).
  change (seqs [Lit (dq "'")]) with (Lit (dq "'")) in H.
  inversion H1 as [s x' t E | | | | | | |]; subst.
  inversion H2 as [| | | | | | | j r x' y2 Hv]; subst.
  inversion H as [s x' t' E' | | | | | | |]; subst.
  apply stripPrefix_app in E as (U & E & _ & HU).
  pose proof (run_consumed _ _ _ _ Hv) as Ev.
  apply stripPrefix_app in E' as (q & E' & _).
  cbn [rest caps] in *.
  exists U, (consumed (MState t (caps x)) y2), q. repeat split.
  - rewrite E, Ev at 1. now rewrite E'.
  - exact HU.
  - now apply run_notQuote_head.
  - unfold setCap. apply list_lookup_insert_eq.
    apply run_caps_length in Hv. cbn [caps] in Hv. lia.
Qed.

Lemma hasAttr_intro (name P U w : string) (c : ascii) :
  (forall u, Str.stripPrefix (charEq true) (dq (name +:+ "='")) (U +:+ u) = Some u) ->
  c <> dquote ->
  hasAttr name (P +:+ U +:+ String c w) = true.
Proof.
  intros HU Hc.
  assert (Here : hasAttr name (U +:+ String c w) = true).
  { destruct (U +:+ String c w) eqn:E; simpl.
    - destruct U; discriminate.
    - rewrite <- E, HU. replace (Char.eqb c dquote) with false; [reflexivity|].
      symmetry. apply not_true_is_false. intros T. now apply eqb_char_eq in T. }
  induction P as [|a P IH]; [exact Here|].
  rewrite app_cons_str. simpl. rewrite IH. apply orb_true_r.
Qed.

(** A run of a pattern that has the optional attribute [(?:name='...')?]
    between two parts without the group [i]: the group stays unset, or is
    set to an empty value, or the markup has a value for the attribute. *)
Lemma run_optional_attr (name : string) (i : nat) (l1 l2 : list regex)
    (n : nat) (s : string) (y : mstate) :
  run true (seqs (l1 ++ Opt (attr name i) :: l2)) (MState s (replicate n None)) y ->
  i < n ->
  ~ In i (groups (seqs l1)) -> ~ In i (groups (seqs l2)) ->
  caps y !! i = Some None \/ caps y !! i = Some (Some EmptyString) \/
  exists P U c w, s = P +:+ U +:+ String c w +:+ rest y /\ c <> dquote /\
    (forall u, Str.stripPrefix (charEq true) (dq (name +:+ "='")) (U +:+ u) = Some u).
Proof.
  intros H Hi N1 N2.
  apply run_seqs_app in H as (a & H1 & H).
  apply run_seqs_cons in H as (b & Ho & H2).
  rewrite (run_caps_other _ _ _ _ _ H2 N2).
  assert (La : length (caps a) = n).
  { apply run_caps_length in H1. simpl in H1. now rewrite length_replicate in H1. }
  assert (Ca : caps a !! i = Some None).
  { rewrite (run_caps_other _ _ _ _ _ H1 N1). simpl.
    now apply lookup_replicate_2. }
  inversion Ho as [| | | | | r x' | r x' y' Ht |]; subst; [now left|].
  apply run_attr in Ht as (U & v & q & E & HU & [-> | (c & w & -> & Hc)] & Hv).
  - right. now left.
  - right. right. simpl in E.
    destruct (run_rest _ _ _ _ H1) as (P & E1). simpl in E1.
    destruct (run_rest _ _ _ _ H2) as (S2 & E2).
    exists P, U, c, (w +:+ q +:+ S2). repeat split; [|exact Hc|exact HU].
    rewrite E1, E, E2. rewrite !app_cons_str, !app_assoc_str. reflexivity.
  - rewrite clearCaps_length. lia.
Qed.

End AttributeFacts.

(** ** The loop of [exec] *)

Section ExecLoop.

Lemma found_progress (re : regexp) (s : string) (m : mresult) :
  literalHead re -> found re s m ->
  String.length (after m) < String.length s.
Proof.
  intros (c & l & rs & Hs) (pre & y & -> & Hr & _ & Ha).
  rewrite Hs in Hr. apply run_seqs_cons in Hr as (x1 & H1 & H2).
  inversion H1 as [t x' t' E | | | | | | |]; subst.
  cbn [rest] in E. apply stripPrefix_app in E as (p & E & L & _).
  apply run_length in H2. cbn [rest] in H2.
  apply (f_equal String.length) in E. rewrite !length_app_str in E.
  rewrite Ha in *. rewrite !length_app_str. simpl in L. lia.
Qed.

(** The fuel does not count once it exceeds the length of the text: the
    loop stops because a search fails, never because the fuel runs out. *)
Lemma execLoop_fuel (re : regexp) :
  literalHead re ->
  forall n1 n2 s,
    String.length s < n1 -> String.length s < n2 ->
    execLoop n1 re s = execLoop n2 re s.
Proof.
  intros Hre. induction n1 as [|n1 IH]; intros n2 s H1 H2; [lia|].
  destruct n2 as [|n2]; [lia|]. simpl.
  destruct (search re s) as [m|] eqn:E; [|reflexivity].
  f_equal. apply search_found in E.
  pose proof (found_progress _ _ _ Hre E). apply IH; lia.
Qed.

(** The loop as the source writes it: search, and go on after the match. *)
Lemma execAll_unfold (re : regexp) (s : string) :
  literalHead re ->
  execAll re s =
    match search re s with
    | Some m => m :: execAll re (after m)
    | None => []
    end.
Proof.
  intros Hre. unfold execAll at 1. simpl.
  destruct (search re s) as [m|] eqn:E; [|reflexivity].
  f_equal. unfold execAll. apply execLoop_fuel; [exact Hre | | lia].
  apply search_found in E. pose proof (found_progress _ _ _ Hre E). lia.
Qed.

Lemma literalHead_nonFraction : literalHead nonFractionPattern.
Proof. now eexists _, _, _. Qed.

Lemma literalHead_fraction : literalHead fractionPattern.
Proof. now eexists _, _, _. Qed.

Lemma literalHead_nonNumeric : literalHead nonNumericPattern.
Proof. now eexists _, _, _. Qed.

Lemma literalHead_contextBlock (v : string) : literalHead (contextBlock v).
Proof. now eexists _, _, _. Qed.

Lemma literalHead_member : literalHead memberPattern.
Proof. now eexists _, _, _. Qed.

End ExecLoop.

(** ** The greedy star of a class *)

Section StarFacts.

Variable ci : bool.

Lemma matchRe_star_cls (c : cclass) (s : string) (cs : list (option string)) (k : cont) :
  matchRe ci (Star true (Cls c)) (MState s cs) k = starCls ci c s cs k.
Proof.
  change (matchRe ci (Star true (Cls c)) (MState s cs) k) with
    (repeatMatcher
       (fun x' k' => matchRe ci (Cls c) (clearCaps (groups (Cls c)) x') k')
       true (String.length s) (MState s cs) k).
  set (body := fun x' k' => matchRe ci (Cls c) (clearCaps (groups (Cls c)) x') k').
  assert (Hb : forall a t k', body (MState (String a t) cs) k'
                 = if clsMatch ci c a then k' (MState t cs) else None)
    by reflexivity.
  induction s as [|a t IH]; [reflexivity|].
  cbn [String.length repeatMatcher starCls]. rewrite Hb.
  destruct (clsMatch ci c a); [|reflexivity].
  unfold progress at 1. cbn [rest String.length].
  replace (String.length t =? S (String.length t))%nat with false
    by (symmetry; apply Nat.eqb_neq; lia).
  now rewrite IH.
Qed.

(** The star takes a whole run when the continuation accepts what follows
    the run. *)
Lemma starCls_whole_run (c : cclass) (d t : string) (cs : list (option string))
    (k : cont) (z : mstate) :
  allCls ci c d = true -> stopsCls ci c t = true ->
  k (MState t cs) = Some z ->
  starCls ci c (d +:+ t) cs k = Some z.
Proof.
  intros Hd Ht Hk. induction d as [|a d IH].
  - rewrite app_nil_l_str. destruct t as [|b t]; [exact Hk|].
    simpl in *. apply negb_true_iff in Ht. now rewrite Ht.
  - rewrite app_cons_str. simpl in *. apply andb_true_iff in Hd as [Ha Hd].
    rewrite Ha, (IH Hd). reflexivity.
Qed.

(** What a run of the star consumes is in the class. *)
Lemma run_star_cls (g : bool) (c : cclass) (x y : mstate) :
  run ci (Star g (Cls c)) x y ->
  allCls ci c (consumed x y) = true /\ caps y = caps x.
Proof.
  remember (Star g (Cls c)) as r eqn:Er. intros H.
  induction H as [| | | g' r' x | g' r' x y z H1 _ H2 IH | | |];
    try discriminate; injection Er as -> ->.
  - unfold consumed. rewrite Nat.sub_diag. destruct (rest x); now split.
  - inversion H1 as [| c' x' a t E C | | | | | |]; subst.
    destruct (IH eq_refl) as [IHa IHc]. cbn [caps clearCaps groups foldr] in *.
    split; [|exact IHc].
    pose proof (run_consumed _ _ _ _ H2) as Ec. cbn [rest] in *.
    pose proof (run_length _ _ _ _ H2) as Hl. cbn [rest] in Hl.
    change (rest (clearCaps [] x)) with (rest x) in E.
    unfold consumed in *. rewrite E. cbn [String.length rest] in *.
    replace (S (String.length t) - String.length (rest z))
      with (S (String.length t - String.length (rest z))) by lia.
    simpl. now rewrite C, IHa.
Qed.

End StarFacts.

(** ** Searches and elements *)

Section SearchFacts.

Variable re : regexp.

Lemma matchAt_run (s : string) (m : mresult) :
  matchAt re s = Some m ->
  exists y,
    run (ignoreCase re) (source re) (MState s (replicate (S (ngroups re)) None)) y /\
    captures m = caps y /\ after m = rest y /\ s = fullMatch m +:+ after m.
Proof.
  unfold matchAt. intros H.
  destruct (matchRe _ _ _ _) as [y|] eqn:E; [|discriminate]. injection H as <-.
  apply matchRe_sound in E as (y' & Hr & [= ->]).
  pose proof (run_consumed _ _ _ _ Hr) as Hc. exists y. now repeat split.
Qed.

(** A search that succeeds found the leftmost place where the pattern
    matches. *)
Lemma search_leftmost (s : string) (m : mresult) :
  search re s = Some m ->
  exists pre t m0,
    s = pre +:+ t /\ matchAt re t = Some m0 /\ captures m = captures m0 /\
    forall pre' t', s = pre' +:+ t' -> String.length pre' < String.length pre ->
                    matchAt re t' = None.
Proof.
  revert m. induction s as [|c s IH]; intros m H; simpl in H.
  - destruct (matchAt re EmptyString) as [m0|] eqn:E; [|discriminate].
    injection H as <-. exists EmptyString, EmptyString, m0.
    repeat split; try assumption. simpl. lia.
  - destruct (matchAt re (String c s)) as [m0|] eqn:E.
    + injection H as <-. exists EmptyString, (String c s), m0.
      repeat split; try assumption. simpl. lia.
    + destruct (search re s) as [m'|]; [|discriminate]. injection H as <-.
      destruct (IH _ eq_refl) as (pre & t & m0 & -> & Hm & Hc & Hmin).
      exists (String c pre), t, m0. repeat split; try assumption.
      intros [|c' pre'] t' Ht Hl.
      * rewrite app_nil_l_str in Ht. now subst t'.
      * rewrite !app_cons_str in Ht. injection Ht as <- Ht.
        apply (Hmin pre' t' Ht). simpl in Hl. lia.
Qed.

(** A search that fails found no place at all. *)
Lemma search_nowhere (s : string) :
  search re s = None -> forall pre t, s = pre +:+ t -> matchAt re t = None.
Proof.
  induction s as [|c s IH]; intros H pre t Ht; simpl in H.
  - destruct pre; [|discriminate]. rewrite app_nil_l_str in Ht. subst t.
    now destruct (matchAt re EmptyString).
  - destruct (matchAt re (String c s)) as [m0|] eqn:E; [discriminate|].
    destruct (search re s) as [m'|] eqn:E'; [discriminate|].
    destruct pre as [|c' pre].
    + rewrite app_nil_l_str in Ht. now subst t.
    + rewrite app_cons_str in Ht. injection Ht as <- Ht. now apply (IH eq_refl pre).
Qed.

(** A search finds the match at a place when the pattern matches nowhere
    to the left of it. *)
Lemma search_at (pre t : string) (m0 : mresult) :
  matchAt re t = Some m0 ->
  (forall pre' t', pre +:+ t = pre' +:+ t' ->
                   String.length pre' < String.length pre -> matchAt re t' = None) ->
  exists m, search re (pre +:+ t) = Some m /\ captures m = captures m0.
Proof.
  intros Hm. induction pre as [|c pre IH]; intros Hmin.
  - rewrite app_nil_l_str. exists m0. split; [|reflexivity].
    destruct t; simpl; now rewrite Hm.
  - rewrite app_cons_str. simpl.
    rewrite (Hmin EmptyString (String c (pre +:+ t)) eq_refl) by (simpl; lia).
    destruct IH as (m & -> & Hc).
    + intros pre' t' Ht Hl. apply (Hmin (String c pre') t').
      * rewrite !app_cons_str. now f_equal.
      * simpl. lia.
    + eexists. split; [reflexivity | exact Hc].
Qed.

End SearchFacts.

Section ElementFacts.

Variable tag : string.

Lemma allCls_notLt (d : string) :
  allCls false (NotChar "<") d = true <-> Str.count "<" d = 0.
Proof.
  induction d as [|a d IH]; [simpl; tauto|].
  cbn [allCls Str.count clsMatch]. unfold charEq, Char.eqb.
  rewrite (Ascii.eqb_sym "<" a).
  destruct (Ascii.eqb a "<"); simpl; [split; [discriminate | lia] | exact IH].
Qed.

Lemma stripPrefix_same (p t : string) :
  Str.stripPrefix (charEq false) p (p +:+ t) = Some t.
Proof. change (charEq false) with Char.eqb. now apply stripPrefix_exact. Qed.

Lemma stripPrefix_same_inv (p s t : string) :
  Str.stripPrefix (charEq false) p s = Some t -> s = p +:+ t.
Proof. change (charEq false) with Char.eqb. apply stripPrefix_exact. Qed.

(** The pattern of an element matches where the element starts, and
    captures its text. *)
Lemma matchAt_element_complete (d s : string) :
  elementAt tag d s ->
  exists m, matchAt (element tag) s = Some m /\ capture 1 m = Some d.
Proof.
  intros (Hd & post & ->). unfold matchAt.
  cbn [source element ignoreCase ngroups seqs matchRe rest caps].
  rewrite stripPrefix_same. cbn [rest caps].
  fold notLt. unfold notLt. rewrite matchRe_star_cls.
  rewrite (starCls_whole_run false (NotChar "<") d (closeTag tag +:+ post) _ _
             (MState post (setCap 1 (Some d) (replicate 2 None)))).
  - eexists. split; reflexivity.
  - now apply allCls_notLt.
  - reflexivity.
  - cbn [rest caps]. rewrite stripPrefix_same. unfold consumed. cbn [rest].
    rewrite take_app_length. reflexivity.
Qed.

(** Where the pattern of an element matches, the element starts, around
    the text that the pattern captures. *)
Lemma matchAt_element_sound (s : string) (m : mresult) :
  matchAt (element tag) s = Some m ->
  exists d, elementAt tag d s /\ capture 1 m = Some d.
Proof.
  intros H. apply matchAt_run in H as (y & Hr & Hc & _ & _).
  cbn [source element ignoreCase ngroups] in Hr.
  apply run_seqs_cons in Hr as (x1 & H1 & Hr).
  apply run_seqs_cons in Hr as (x2 & H2 & H3).
  change (seqs [Lit (closeTag tag)]) with (Lit (closeTag tag)) in H3.
  inversion H1 as [p x' t E | | | | | | |]; subst.
  inversion H2 as [| | | | | | | j r x' y2 Hv]; subst.
  inversion H3 as [p x' t' E' | | | | | | |]; subst.
  cbn [rest caps] in *.
  apply stripPrefix_same_inv in E. apply stripPrefix_same_inv in E'.
  pose proof (run_consumed _ _ _ _ Hv) as Ev. cbn [rest] in Ev.
  destruct (run_star_cls _ _ _ _ _ Hv) as [Ha Hcaps]. cbn [caps] in Hcaps.
  exists (consumed (MState t (replicate 2 None)) y2). split.
  - split; [now apply allCls_notLt|]. exists t'.
    rewrite E, Ev at 1. now rewrite E'.
  - unfold capture. rewrite Hc, Hcaps. reflexivity.
Qed.

Lemma matchFirst_element_first (s : string) (m : mresult) :
  matchFirst (element tag) s = Some m ->
  exists d, firstElement tag d s /\ group 1 m = d.
Proof.
  intros H. apply search_leftmost in H as (pre & t & m0 & -> & Hm & Hc & Hmin).
  destruct (matchAt_element_sound _ _ Hm) as (d & Hd & Hcap).
  exists d. split.
  - exists pre, t. split; [reflexivity | split; [exact Hd|]].
    intros pre' t' d' Ht Hl Hd'.
    destruct (matchAt_element_complete _ _ Hd') as (m' & Hm' & _).
    rewrite (Hmin pre' t' Ht Hl) in Hm'. discriminate.
  - unfold group, capture in *. now rewrite Hc, Hcap.
Qed.

Lemma matchFirst_element_none (s : string) :
  matchFirst (element tag) s = None -> ~ hasElement tag s.
Proof.
  intros H (pre & t & d & Hs & Hd).
  destruct (matchAt_element_complete _ _ Hd) as (m & Hm & _).
  rewrite (search_nowhere _ _ H pre t Hs) in Hm. discriminate.
Qed.

Lemma firstElement_matchFirst (d s : string) :
  firstElement tag d s ->
  exists m, matchFirst (element tag) s = Some m /\ group 1 m = d.
Proof.
  intros (pre & t & -> & Hd & Hmin).
  destruct (matchAt_element_complete _ _ Hd) as (m0 & Hm0 & Hc0).
  destruct (search_at (element tag) pre t m0 Hm0) as (m & Hm & Hc).
  - intros pre' t' Ht Hl.
    destruct (matchAt (element tag) t') as [m'|] eqn:E; [|reflexivity].
    destruct (matchAt_element_sound _ _ E) as (d' & Hd' & _).
    now destruct (Hmin pre' t' d' Ht Hl).
  - exists m. split; [exact Hm|]. unfold group, capture in *. now rewrite Hc, Hc0.
Qed.

Lemma firstElement_hasElement (d s : string) :
  firstElement tag d s -> hasElement tag s.
Proof. intros (pre & t & Hs & Hd & _). now exists pre, t, d. Qed.

(** An element is present exactly when its pattern finds a match. *)
Lemma hasElement_matchFirst (s : string) :
  hasElement tag s <-> matchFirst (element tag) s <> None.
Proof.
  split.
  - intros H E. now apply matchFirst_element_none in E.
  - intros H. destruct (matchFirst (element tag) s) as [m|] eqn:E; [|contradiction].
    destruct (matchFirst_element_first _ _ E) as (d & Hd & _).
    now apply firstElement_hasElement in Hd.
Qed.

End ElementFacts.

(** ** The order of the backtracking *)

Section GreedyFacts.

Variable ci : bool.

Lemma matchRe_seq_sound (r1 r2 : regex) (x : mstate) (k : cont) (z : mstate) :
  matchRe ci (Seq r1 r2) x k = Some z ->
  exists y, run ci r1 x y /\ matchRe ci r2 y k = Some z.
Proof. intros H. now apply (matchRe_sound ci r1 x (fun y => matchRe ci r2 y k)). Qed.

(** A match of a sequence, cut between a front part and the rest: the front
    part ran, and the matcher went on with the rest. *)
Lemma matchRe_seqs_app_sound (l1 l2 : list regex) (x : mstate) (k : cont) (z : mstate) :
  l2 <> [] ->
  matchRe ci (seqs (l1 ++ l2)) x k = Some z ->
  exists y, run ci (seqs l1) x y /\ matchRe ci (seqs l2) y k = Some z.
Proof.
  intros Hl2. revert x. induction l1 as [|r l1 IH]; intros x H.
  - exists x. split; [now apply run_empty_lit | exact H].
  - assert (E : seqs ((r :: l1) ++ l2) = Seq r (seqs (l1 ++ l2))).
    { simpl. destruct (l1 ++ l2)%list eqn:E'; [|reflexivity].
      apply app_eq_nil in E' as [_ ?]. contradiction. }
    rewrite E in H. apply matchRe_seq_sound in H as (y1 & H1 & H).
    apply IH in H as (y & H2 & H). exists y. split; [|exact H].
    apply run_seqs_cons. eauto.
Qed.

Lemma starCls_None (c : cclass) (s : string) (cs : list (option string)) (k : cont) :
  starCls ci c s cs k = None ->
  forall d t, s = d +:+ t -> allCls ci c d = true -> k (MState t cs) = None.
Proof.
  induction s as [|a s IH]; intros H d t Hs Hd.
  - destruct d; [|discriminate]. rewrite app_nil_l_str in Hs. now subst t.
  - simpl in H. destruct d as [|a' d].
    + rewrite app_nil_l_str in Hs. subst t.
      destruct (clsMatch ci c a); [|exact H].
      now destruct (starCls ci c s cs k).
    + rewrite app_cons_str in Hs. injection Hs as <- ->.
      simpl in Hd. apply andb_true_iff in Hd as [Ha Hd]. rewrite Ha in H.
      destruct (starCls ci c (d +:+ t) cs k) eqn:E; [discriminate|].
      now apply (IH eq_refl d t).
Qed.

(** The greedy star of a class stops at the longest run after which the
    continuation succeeds. *)
Lemma starCls_longest (c : cclass) (s : string) (cs : list (option string))
    (k : cont) (z : mstate) :
  starCls ci c s cs k = Some z ->
  exists d t,
    s = d +:+ t /\ allCls ci c d = true /\ k (MState t cs) = Some z /\
    forall d' t', s = d' +:+ t' -> allCls ci c d' = true ->
                  String.length d < String.length d' -> k (MState t' cs) = None.
Proof.
  induction s as [|a s IH]; intros H; simpl in H.
  - exists EmptyString, EmptyString. repeat split; try assumption.
    intros [|a' d'] t' Hs _ Hl; [simpl in Hl; lia | discriminate].
  - destruct (clsMatch ci c a) eqn:Ha.
    + destruct (starCls ci c s cs k) as [z'|] eqn:E; simpl in H.
      * injection H as ->. destruct (IH eq_refl) as (d & t & -> & Hd & Hk & Hmax).
        exists (String a d), t. simpl. rewrite Ha, Hd. repeat split; try assumption.
        intros [|a' d'] t' Hs Hd' Hl; [simpl in Hl; lia|].
        rewrite app_cons_str in Hs. injection Hs as <- Hs.
        simpl in Hd'. apply andb_true_iff in Hd' as [_ Hd'].
        apply (Hmax d' t' Hs Hd'). simpl in Hl. lia.
      * exists EmptyString, (String a s). repeat split; try assumption.
        intros [|a' d'] t' Hs Hd' Hl; [simpl in Hl; lia|].
        rewrite app_cons_str in Hs. injection Hs as <- Hs.
        simpl in Hd'. apply andb_true_iff in Hd' as [_ Hd'].
        now apply (starCls_None c s cs k E d' t').
    + exists EmptyString, (String a s). repeat split; try assumption.
      intros [|a' d'] t' Hs Hd' Hl; [simpl in Hl; lia|].
      rewrite app_cons_str in Hs. injection Hs as <- Hs.
      simpl in Hd'. rewrite Ha in Hd'. discriminate.
Qed.

Lemma allCls_app (c : cclass) (a b : string) :
  allCls ci c (a +:+ b) = allCls ci c a && allCls ci c b.
Proof.
  induction a as [|x a IH]; [reflexivity|].
  rewrite app_cons_str. simpl. rewrite IH. now rewrite andb_assoc.
Qed.

End GreedyFacts.

Section CaseFolding.

Lemma canonicalize_idem (a : ascii) :
  Char.canonicalize (Char.canonicalize a) = Char.canonicalize a.
Proof.
  destruct a as [[] [] [] [] [] [] [] []]; reflexivity.
Qed.

(** Under the [i] flag, two characters are equal when their canonical
    forms are: the relation is transitive. *)
Lemma charEq_trans (b x a : ascii) :
  charEq true x a = true -> charEq true b a = charEq true b x.
Proof.
  unfold charEq, Char.eqb. intros H. apply Ascii.eqb_eq in H. now rewrite H.
Qed.

(** What [stripPrefix] removes under the [i] flag is in a negated class
    when the pattern is. *)
Lemma stripPrefix_cls (b : ascii) (p s t : string) :
  Str.stripPrefix (charEq true) p s = Some t ->
  exists p', s = p' +:+ t /\
             allCls true (NotChar b) p' = allCls true (NotChar b) p.
Proof.
  revert s. induction p as [|x p IH]; intros s H; cbn [Str.stripPrefix] in H.
  - injection H as <-. now exists EmptyString.
  - destruct s as [|a s]; [discriminate|].
    destruct (charEq true x a) eqn:E; [|discriminate].
    destruct (IH _ H) as (p' & -> & Hp).
    exists (String a p'). split; [reflexivity|].
    cbn [allCls clsMatch]. now rewrite Hp, (charEq_trans b x a E).
Qed.

(** No letter folds to [>], [<] or the quote. *)
Lemma charEq_gt (a : ascii) : charEq true ">" a = Char.eqb ">" a.
Proof. destruct a as [[] [] [] [] [] [] [] []]; reflexivity. Qed.

Lemma charEq_lt (a : ascii) : charEq true "<" a = Char.eqb "<" a.
Proof. destruct a as [[] [] [] [] [] [] [] []]; reflexivity. Qed.

Lemma allCls_notGt (d : string) :
  allCls true (NotChar ">") d = true <-> Str.count ">" d = 0.
Proof.
  induction d as [|a d IH]; [simpl; tauto|].
  cbn [allCls Str.count clsMatch]. rewrite charEq_gt. unfold Char.eqb.
  rewrite (Ascii.eqb_sym ">" a).
  destruct (Ascii.eqb a ">"); simpl; [split; [discriminate | lia] | exact IH].
Qed.

End CaseFolding.

(** ** The optional groups of the numeric-fraction pattern *)

Section OptionalGroups.

Lemma execLoop_matchAt (re : regexp) (fuel : nat) (s : string) (m : mresult) :
  In m (execLoop fuel re s) ->
  exists t m0, matchAt re t = Some m0 /\ captures m = captures m0.
Proof.
  revert s. induction fuel as [|n IH]; intros s H; simpl in H; [contradiction|].
  destruct (search re s) as [m'|] eqn:E; [|contradiction].
  destruct H as [<- | H]; [|now apply IH in H].
  apply search_leftmost in E as (pre & t & m0 & _ & Hm & Hc & _). eauto.
Qed.

(** What a run of an attribute reads, with the classes of the name and of
    the closing quote. *)
Lemma run_attr_cls (b : ascii) (name : string) (i : nat) (x y : mstate) :
  run true (attr name i) x y ->
  i < length (caps x) ->
  exists U v q,
    rest x = U +:+ v +:+ q +:+ rest y /\
    String.length U = String.length (dq (name +:+ "='")) /\
    allCls true (NotChar b) U = allCls true (NotChar b) (dq (name +:+ "='")) /\
    allCls true (NotChar b) q = allCls true (NotChar b) (dq "'") /\
    caps y !! i = Some (Some v).
Proof.
  unfold attr. intros H Hi.
  apply run_seqs_cons in H as (x1 & H1 & H).
  apply run_seqs_cons in H as (x2 & H2 & H).
  change (seqs [Lit (dq "'")]) with (Lit (dq "'")) in H.
  inversion H1 as [s x' t E | | | | | | |]; subst.
  inversion H2 as [| | | | | | | j r x' y2 Hv]; subst.
  inversion H as [s x' t' E' | | | | | | |]; subst.
  pose proof (run_consumed _ _ _ _ Hv) as Ev.
  cbn [rest caps] in *.
  destruct (stripPrefix_cls b _ _ _ E) as (U & EU & HU).
  destruct (stripPrefix_app _ _ _ _ E) as (U' & EU' & LU & _).
  assert (U' = U) as ->.
  { apply (app_inv_tail_str _ _ t). now rewrite <- EU, <- EU'. }
  destruct (stripPrefix_cls b _ _ _ E') as (q & Eq & Hq).
  exists U, (consumed (MState t (caps x)) y2), q. repeat split.
  - rewrite EU, Ev at 1. now rewrite Eq.
  - exact LU.
  - exact HU.
  - exact Hq.
  - unfold setCap. apply list_lookup_insert_eq.
    apply run_caps_length in Hv. cbn [caps] in Hv. lia.
Qed.

(** The end of an annotation, [>([^<]* )<\/ix:...>]: where it can run from
    some captures, the matcher finds a match from any captures. *)
Lemma tail_matches (close s r : string) (cs cs' : list (option string)) (y : mstate) :
  run true (seqs [Grp 6 notLt; Lit (String "<" close)]) (MState s cs) y ->
  matchRe true (seqs [Grp 6 notLt; Lit (String "<" close)]) (MState s cs') Some <> None.
Proof.
  intros H. apply run_seqs_cons in H as (x1 & H1 & H).
  change (seqs [Lit (String "<" close)]) with (Lit (String "<" close)) in H.
  inversion H1 as [| | | | | | | j r' x' y2 Hv]; subst.
  inversion H as [p x' t E | | | | | | |]; subst.
  cbn [rest caps] in *.
  pose proof (run_consumed _ _ _ _ Hv) as Ev. cbn [rest] in Ev.
  destruct (run_star_cls _ _ _ _ _ Hv) as [Ha _].
  change (seqs [Grp 6 notLt; Lit (String "<" close)])
    with (Seq (Grp 6 notLt) (Lit (String "<" close))).
  cbn [matchRe]. fold notLt. unfold notLt at 1. rewrite matchRe_star_cls.
  rewrite Ev.
  erewrite starCls_whole_run; [discriminate | exact Ha | |].
  - destruct (rest y2) as [|a u]; [reflexivity|].
    cbn [Str.stripPrefix] in E. cbn [stopsCls clsMatch].
    destruct (charEq true "<" a); [reflexivity | discriminate].
  - cbn [rest caps]. rewrite E. reflexivity.
Qed.

Lemma nonFractionPattern_parts :
  source nonFractionPattern = seqs (nonFractionFront ++ notGt :: nonFractionBack).
Proof. reflexivity. Qed.

(** At a [>], the optional group of [scale] and the [[^>]*] after it match
    the empty text, and the matcher goes on after the [>]. *)
Lemma back_at_gt (r : string) (cs : list (option string)) :
  matchRe true (seqs nonFractionBack) (MState (String ">" r) cs) Some
  = matchRe true (seqs [Grp 6 notLt; Lit "</ix:nonFraction>"]) (MState r cs) Some.
Proof. reflexivity. Qed.

(** The group of [scale] is set only from a text with a [>] in it: a scale
    such as [scale='6'] is never captured.  The [[^>]*] in front of the
    group takes the longest run without [>] after which the rest of the
    pattern matches, and after the whole of the attributes it does. *)
Lemma scale_group_needs_gt (htmlContent : string) (m : mresult) (sc : string) :
  In m (execAll nonFractionPattern htmlContent) ->
  capture 5 m = Some sc ->
  Str.count ">" sc <> 0.
Proof.
  intros Hin Hcap Hcount.
  apply execLoop_matchAt in Hin as (t & m0 & Hm & Hc).
  unfold matchAt in Hm.
  destruct (matchRe _ _ _ _) as [y|] eqn:E; [|discriminate].
  injection Hm as <-. cbn [captures] in Hc.
  unfold capture in Hcap. rewrite Hc in Hcap. clear Hc m.
  rewrite nonFractionPattern_parts in E.
  change (ignoreCase nonFractionPattern) with true in E.
  change (ngroups nonFractionPattern) with 6 in E.
  apply matchRe_seqs_app_sound in E as (x9 & Hfront & E); [|discriminate].
  assert (C9 : caps x9 !! 5 = Some None).
  { rewrite (run_caps_other _ _ _ _ _ Hfront); [reflexivity|].
    no_group. }
  destruct x9 as [s9 c9]. cbn [caps] in C9.
  change (seqs (notGt :: nonFractionBack)) with (Seq notGt (seqs nonFractionBack)) in E.
  change (matchRe true (Seq notGt (seqs nonFractionBack)) (MState s9 c9) Some)
    with (matchRe true notGt (MState s9 c9)
            (fun y => matchRe true (seqs nonFractionBack) y Some)) in E.
  unfold notGt at 1 in E. rewrite matchRe_star_cls in E.
  apply starCls_longest in E as (d5 & t5 & -> & Hd5 & Hk & Hmax).
  apply matchRe_sound in Hk as (y' & Hr & [= ->]).
  apply run_seqs_cons in Hr as (x10 & Ho & Hr).
  apply run_seqs_cons in Hr as (x11 & H6 & Hr).
  apply run_seqs_cons in Hr as (x12 & Hgt & Htail).
  assert (C10 : caps y !! 5 = caps x10 !! 5).
  { rewrite (run_caps_other _ _ _ _ _ Htail) by (no_group).
    rewrite (run_caps_other _ _ _ _ _ Hgt) by (no_group).
    apply (run_caps_other _ _ _ _ _ H6). no_group. }
  rewrite C10 in Hcap.
  inversion Ho as [| | | | | r x' | r x' y' Ht |]; subst.
  { cbn [caps] in Hcap. rewrite C9 in Hcap. discriminate. }
  apply (run_attr_cls ">") in Ht as (U & v & q & Et & LU & HU & Hq & Hv).
  2:{ rewrite clearCaps_length. cbn [caps]. apply lookup_lt_Some in C9. exact C9. }
  rewrite Hv in Hcap. injection Hcap as ->. cbn [rest clearCaps] in Et.
  pose proof (run_consumed _ _ _ _ H6) as E6.
  destruct (run_star_cls _ _ _ _ _ H6) as [Hd6 _].
  inversion Hgt as [p x' t' Eg | | | | | | |]; subst. cbn [rest caps] in *.
  destruct (rest x11) as [|a r12] eqn:E11; [discriminate|].
  cbn [Str.stripPrefix] in Eg. rewrite charEq_gt in Eg.
  destruct (Char.eqb ">" a) eqn:Ea; [|discriminate].
  apply eqb_char_eq in Ea as <-. injection Eg as <-.
  specialize (Hmax (d5 +:+ U +:+ sc +:+ q +:+ consumed x10 x11) (String ">" r12)).
  rewrite back_at_gt in Hmax.
  apply (tail_matches _ _ r12 _ c9) in Htail. apply Htail, Hmax.
  - rewrite !app_assoc_str. now rewrite <- E6.
  - rewrite !allCls_app, Hd5, HU, Hq, Hd6.
    apply allCls_notGt in Hcount. rewrite Hcount. reflexivity.
  - rewrite !length_app_str, LU. simpl. lia.
Qed.

End OptionalGroups.

(** ** The three kinds of annotation *)

Lemma extractFactsFromIxbrl_In (htmlContent : string) (fact : Fact.t) :
  In fact (extractFactsFromIxbrl htmlContent) ->
  (exists m, In m (execAll nonFractionPattern htmlContent) /\ fact = nonFractionFact m) \/
  (exists m, In m (execAll fractionPattern htmlContent) /\ fact = fractionFact m) \/
  (exists m, In m (execAll nonNumericPattern htmlContent) /\ fact = nonNumericFact m).
Proof.
  unfold extractFactsFromIxbrl. intros H.
  apply in_app_or in H as [H | H]; [|apply in_app_or in H as [H | H]];
    apply in_map_iff in H as (m & <- & H); eauto.
Qed.

Lemma factType_nonFraction (m : mresult) :
  Fact.factType (nonFractionFact m) = "nonFraction".
Proof. unfold nonFractionFact. now destruct (parseXbrlName _). Qed.

Lemma factType_fraction (m : mresult) :
  Fact.factType (fractionFact m) = "fraction".
Proof. unfold fractionFact. now destruct (parseXbrlName _). Qed.

Lemma factType_nonNumeric (m : mresult) :
  Fact.factType (nonNumericFact m) = "nonNumeric".
Proof. unfold nonNumericFact. now destruct (parseXbrlName _). Qed.


(** ** Names *)

Lemma split_length (sep : ascii) (s : string) :
  length (Str.split sep s) = S (Str.count sep s).
Proof.
  induction s as [|c t IH]; simpl; [reflexivity|].
  destruct (Char.eqb c sep); simpl; [now rewrite IH|].
  destruct (Str.split sep t) as [|p ps]; simpl in *; [discriminate|exact IH].
Qed.

(** C10. A concept name with two or more separators [:] is not split: the
    parser returns the namespace ["default"] and, as local name, the whole
    input with its separators. *)
Theorem parseXbrlName_many_separators (name : string) :
  (2 <= Str.count ":" name)%nat ->
  parseXbrlName name = ("default", name).
Proof.
  intros H. unfold parseXbrlName.
  pose proof (split_length ":" name) as L.
  destruct (Str.split ":" name) as [|a [|b [|c l]]]; simpl in L; try reflexivity; lia.
Qed.

Lemma parseXbrlName_many_separators_witness :
  (2 <= Str.count ":" "a:b:c")%nat /\
  parseXbrlName "a:b:c" = ("default", "a:b:c").
Proof.
  split; [vm_compute; lia | apply (parseXbrlName_many_separators "a:b:c"); vm_compute; lia].
Defined.

(** ** The unit of a numeric-fraction annotation *)

(** C9. A numeric-fraction annotation whose markup gives no unit ([unitRef]
    is absent, or its value is empty) is extracted with the unit ["USD"]:
    the field is never left out. *)
Theorem nonFraction_unit_defaults_to_USD (htmlContent : string) (m : mresult) :
  In m (execAll nonFractionPattern htmlContent) ->
  hasAttr "unitRef" (fullMatch m) = false ->
  In (nonFractionFact m) (extractFactsFromIxbrl htmlContent) /\
  Fact.unitRef (nonFractionFact m) = Some "USD".
Proof.
  intros Hin Hno. split.
  { unfold extractFactsFromIxbrl. apply in_or_app. left. now apply in_map. }
  apply execAll_found in Hin as (pre & y & _ & Hr & Hc & Ha).
  assert (Hu : truthy (capture 3 m) = false).
  { unfold capture. rewrite Hc.
    change (source nonFractionPattern) with
      (seqs ([Lit "<ix:nonFraction"; notGt; attr "name" 1; notGt;
              attr "contextRef" 2; notGt]
             ++ Opt (attr "unitRef" 3)
                :: [notGt; Opt (attr "decimals" 4); notGt;
                    Opt (attr "scale" 5); notGt;
                    Lit ">"; Grp 6 notLt; Lit "</ix:nonFraction>"])) in Hr.
    apply run_optional_attr in Hr as [-> | [-> | (P & U & c & w & E & Hq & HU)]];
      try reflexivity.
    - rewrite <- Ha in E.
      assert (EF : fullMatch m = P +:+ U +:+ String c w).
      { apply (app_inv_tail_str _ _ (after m)).
        rewrite E, !app_assoc_str. reflexivity. }
      rewrite EF, (hasAttr_intro "unitRef" P U w c HU Hq) in Hno. discriminate.
    - simpl. lia.
    - no_group.
    - no_group. }
  unfold nonFractionFact. destruct (parseXbrlName (group 1 m)) as [ns ln].
  simpl. unfold orDefault. now rewrite Hu.
Qed.

Lemma nonFraction_unit_defaults_to_USD_witness :
  In sharesMatch (execAll nonFractionPattern sharesMarkup) /\
  hasAttr "unitRef" (fullMatch sharesMatch) = false /\
  Fact.unitRef (nonFractionFact sharesMatch) = Some "USD".
Proof.
  assert (Hin : In sharesMatch (execAll nonFractionPattern sharesMarkup))
    by (vm_compute; left; reflexivity).
  assert (Hno : hasAttr "unitRef" (fullMatch sharesMatch) = false)
    by (vm_compute; reflexivity).
  split; [exact Hin | split; [exact Hno|]].
  exact (proj2 (nonFraction_unit_defaults_to_USD sharesMarkup sharesMatch Hin Hno)).
Defined.

(** ** The fact matcher *)

Section MatcherLoop.

Variable contexts : gmap string Context.t.
Variable criteria : Criteria.t.

(** A fact is pushed exactly when the four checks and the lookup of its
    context succeed. *)
Lemma matchFact_Some (fact : Fact.t) (m : Matched.t) :
  matchFact contexts criteria fact = Some m <->
  conceptCheck criteria fact = true /\
  valueCheck criteria fact = true /\
  rangeCheck criteria fact = true /\
  exists context,
    contexts !! Fact.contextRef fact = Some context /\
    dimensionCheck criteria context = true /\
    m = enrich fact context.
Proof.
  unfold matchFact.
  destruct (conceptCheck criteria fact); simpl; [|split; [discriminate | intros [? _]; discriminate]].
  destruct (valueCheck criteria fact); simpl; [|split; [discriminate | intros (_ & ? & _); discriminate]].
  destruct (rangeCheck criteria fact); simpl; [|split; [discriminate | intros (_ & _ & ? & _); discriminate]].
  destruct (contexts !! Fact.contextRef fact) as [context|].
  - destruct (dimensionCheck criteria context) eqn:D; simpl.
    + split.
      * intros [= <-]. repeat split. now exists context.
      * intros (_ & _ & _ & c & [= <-] & _ & ->). reflexivity.
    + split; [discriminate|].
      intros (_ & _ & _ & c & [= <-] & D' & _). congruence.
  - split; [discriminate|]. intros (_ & _ & _ & c & ? & _). discriminate.
Qed.

(** The results are the pushed facts, in the order of the input. *)
Lemma findDimensionalFacts_In (facts : list Fact.t) (m : Matched.t) :
  In m (findDimensionalFacts facts contexts criteria) <->
  exists fact, In fact facts /\ matchFact contexts criteria fact = Some m.
Proof.
  unfold findDimensionalFacts. rewrite <- list_elem_of_In, list_elem_of_omap.
  split; intros (f & H1 & H2); exists f; split; try exact H2; now apply list_elem_of_In.
Qed.


Lemma matched_fact (fact : Fact.t) (m : Matched.t) :
  matchFact contexts criteria fact = Some m -> Matched.fact m = fact.
Proof. intros H. apply matchFact_Some in H as (_ & _ & _ & c & _ & _ & ->). reflexivity. Qed.

End MatcherLoop.


(** C5. The dimensional filter is a conjunction over the axes that the
    criteria name: every result has, for each of them, a member in its
    context that contains the wanted text, letter case apart; and a fact
    whose context lacks one of the axes, or has a member without the text
    for it, is in no result. *)
Theorem dimension_filter_is_conjunctive (facts : list Fact.t)
    (contexts : gmap string Context.t) (criteria : Criteria.t)
    (dims : gmap string string) :
  Criteria.dimensions criteria = Some dims ->
  (forall m axis wanted,
     In m (findDimensionalFacts facts contexts criteria) ->
     dims !! axis = Some wanted ->
     exists member,
       Context.dimensions (Matched.context m) !! axis = Some member /\
       Matched.dimensions m !! axis = Some member /\
       Str.includes (Str.toLowerCase member) (Str.toLowerCase wanted) = true)
  /\
  (forall fact context axis wanted,
     contexts !! Fact.contextRef fact = Some context ->
     dims !! axis = Some wanted ->
     (Context.dimensions context !! axis = None \/
      exists member,
        Context.dimensions context !! axis = Some member /\
        Str.includes (Str.toLowerCase member) (Str.toLowerCase wanted) = false) ->
     forall m, In m (findDimensionalFacts facts contexts criteria) ->
               Matched.fact m <> fact).
Proof.
  intros Hd.
  assert (Hall : forall context axis wanted,
            dimensionCheck criteria context = true ->
            dims !! axis = Some wanted ->
            exists member,
              Context.dimensions context !! axis = Some member /\
              Str.includes (Str.toLowerCase member) (Str.toLowerCase wanted) = true).
  { intros context axis wanted Hc Hl. unfold dimensionCheck in Hc. rewrite Hd in Hc.
    rewrite forallb_forall in Hc.
    apply elem_of_map_to_list, list_elem_of_In, Hc in Hl.
    unfold axisCheck in Hl.
    destruct (Context.dimensions context !! axis) as [[|c member]|]; try discriminate.
    eauto. }
  split.
  - intros m axis wanted Hm Hl.
    apply findDimensionalFacts_In in Hm as (f & _ & Hm).
    apply matchFact_Some in Hm as (_ & _ & _ & context & _ & Hc & ->).
    destruct (Hall _ _ _ Hc Hl) as (member & H1 & H2). simpl. eauto.
  - intros fact context axis wanted Hctx Hl Hbad m Hm Heq.
    apply findDimensionalFacts_In in Hm as (f & _ & Hm).
    apply matched_fact in Hm as Hf. rewrite Heq in Hf. subst f.
    apply matchFact_Some in Hm as (_ & _ & _ & context' & Hctx' & Hc & _).
    rewrite Hctx in Hctx'. injection Hctx' as <-.
    destruct (Hall _ _ _ Hc Hl) as (member & H1 & H2).
    destruct Hbad as [Hn | (member' & H1' & H2')]; congruence.
Qed.

(** C4. When the criteria specify an exact value (a value that is not
    empty: the guard of the check reads an empty one as absent), an
    annotation passes the exact-value check exactly when the string form of
    its decoded value is that value, and the annotations with another
    string form are in no result. *)
Theorem exact_value_check (facts : list Fact.t) (contexts : gmap string Context.t)
    (criteria : Criteria.t) (v : string) :
  Criteria.value criteria = Some v -> v <> EmptyString ->
  (forall fact, valueCheck criteria fact = true <->
                valueToString (Fact.value fact) = v)
  /\
  (forall m, In m (findDimensionalFacts facts contexts criteria) ->
             valueToString (Fact.value (Matched.fact m)) = v)
  /\
  (forall fact, valueToString (Fact.value fact) <> v ->
     forall m, In m (findDimensionalFacts facts contexts criteria) ->
               Matched.fact m <> fact).
Proof.
  intros Hv Hne.
  assert (Hiff : forall fact, valueCheck criteria fact = true <->
                              valueToString (Fact.value fact) = v).
  { intros fact. unfold valueCheck. rewrite Hv.
    destruct v as [|c v']; [contradiction|]. apply String.eqb_eq. }
  split; [exact Hiff|]. split.
  - intros m Hm. apply findDimensionalFacts_In in Hm as (f & _ & Hm).
    apply matchFact_Some in Hm as (_ & Hc & _ & context & _ & _ & ->).
    simpl. now apply Hiff.
  - intros fact Hdiff m Hm Heq.
    apply findDimensionalFacts_In in Hm as (f & _ & Hm).
    apply matched_fact in Hm as Hf. rewrite Heq in Hf. subst f.
    apply matchFact_Some in Hm as (_ & Hc & _). now apply Hiff in Hc.
Qed.

(** The guard of the exact-value check: an empty value is no criterion. *)
Lemma valueCheck_empty_value (criteria : Criteria.t) (fact : Fact.t) :
  Criteria.value criteria = Some EmptyString -> valueCheck criteria fact = true.
Proof. unfold valueCheck. now intros ->. Qed.


Lemma dimension_filter_is_conjunctive_witness :
  Criteria.dimensions geoCriteria = Some geoDims /\
  In (enrich revenueFact sampleContext)
     (findDimensionalFacts [revenueFact] sampleContexts geoCriteria) /\
  geoDims !! geoAxis = Some "nonus" /\
  exists member,
    Context.dimensions (Matched.context (enrich revenueFact sampleContext)) !! geoAxis
      = Some member /\
    Matched.dimensions (enrich revenueFact sampleContext) !! geoAxis = Some member /\
    Str.includes (Str.toLowerCase member) (Str.toLowerCase "nonus") = true.
Proof.
  assert (Hin : In (enrich revenueFact sampleContext)
                   (findDimensionalFacts [revenueFact] sampleContexts geoCriteria))
    by (vm_compute; left; reflexivity).
  assert (Hl : geoDims !! geoAxis = Some "nonus") by (vm_compute; reflexivity).
  split; [reflexivity | split; [exact Hin | split; [exact Hl|]]].
  exact (proj1 (dimension_filter_is_conjunctive [revenueFact] sampleContexts
                  geoCriteria geoDims eq_refl) _ _ _ Hin Hl).
Defined.

Lemma exact_value_check_witness :
  Criteria.value exactCriteria = Some "638" /\ "638" <> EmptyString /\
  (valueCheck exactCriteria revenueFact = true <->
   valueToString (Fact.value revenueFact) = "638").
Proof.
  assert (Hne : "638" <> EmptyString) by discriminate.
  split; [reflexivity | split; [exact Hne|]].
  exact (proj1 (exact_value_check [revenueFact] sampleContexts exactCriteria "638"
                  eq_refl Hne) revenueFact).
Defined.

(** ** The scale of a numeric-fraction annotation *)

(** For every document, a numeric-fraction annotation is extracted without
    a scale, and decoded as its text alone, unless the text taken for the
    scale has a [>] in it. *)
Lemma nonFraction_scale_is_not_captured (htmlContent : string) (fact : Fact.t) :
  In fact (extractFactsFromIxbrl htmlContent) ->
  Fact.factType fact = "nonFraction" ->
  (Fact.scale fact = None /\
   Fact.value fact = VNum (parseNumericValue (Fact.valueRaw fact) None))
  \/ (exists sc, Fact.scale fact = Some sc /\ Str.count ">" sc <> 0).
Proof.
  intros H Ht.
  destruct (extractFactsFromIxbrl_In _ _ H) as [(m & Hm & ->) | [(m & _ & ->) | (m & _ & ->)]].
  - unfold nonFractionFact. destruct (parseXbrlName _). cbn [Fact.scale Fact.value Fact.valueRaw].
    destruct (capture 5 m) as [sc|] eqn:E; [right | left; now split].
    exists sc. split; [reflexivity|]. now apply (scale_group_needs_gt htmlContent m).
  - rewrite factType_fraction in Ht. discriminate.
  - rewrite factType_nonNumeric in Ht. discriminate.
Qed.

(** C1, at scenario A of the specification.  The decoder applies a scale
    that it is given: 638 with the scale 6 is 638000000.  The extractor
    gives it none: the greedy [[^>]*] in front of the optional groups takes
    the attributes of the tag, the groups match the empty text, and the
    annotation is decoded as 638; the search of the scenario, for the range
    from 600000000 to 700000000, finds nothing. *)
Theorem scenarioA_scale_is_dropped :
  parseNumericValue "638" (Some "6") = Num.ofZ 638000000 /\
  List.map (fun f => (Fact.valueRaw f, Fact.scale f, Fact.value f))
           (extractFactsFromIxbrl scenarioA)
    = [("638", None, VNum (Num.ofZ 638))] /\
  findDimensionalFacts (extractFactsFromIxbrl scenarioA)
                       (extractContextsFromIxbrl scenarioA) criteriaA = [].
Proof. vm_compute. repeat split; reflexivity. Qed.

(** ** Numbers and the range check *)

Section NumberFacts.

Lemma SFcompare_swap (x y : spec_float) :
  SFcompare y x = option_map CompOpp (SFcompare x y).
Proof.
  destruct x as [sx | sx | | sx mx ex], y as [sy | sy | | sy my ey]; simpl;
    try reflexivity;
    try (destruct sx; reflexivity); try (destruct sy; reflexivity);
    try (destruct sx, sy; reflexivity).
  destruct sx, sy; simpl; try reflexivity.
  - rewrite (Z.compare_antisym ex ey).
    destruct (ex ?= ey)%Z; simpl; try reflexivity.
    change (Pos.compare_cont Eq my mx) with (my ?= mx)%positive.
    change (Pos.compare_cont Eq mx my) with (mx ?= my)%positive.
    now rewrite (Pos.compare_antisym mx my).
  - rewrite (Z.compare_antisym ex ey).
    destruct (ex ?= ey)%Z; simpl; try reflexivity.
    change (Pos.compare_cont Eq my mx) with (my ?= mx)%positive.
    change (Pos.compare_cont Eq mx my) with (mx ?= my)%positive.
    now rewrite (Pos.compare_antisym mx my).
Qed.

Lemma SFcompare_defined (x y : spec_float) :
  Num.isNaN x = false -> Num.isNaN y = false -> exists c, SFcompare x y = Some c.
Proof.
  destruct x, y; simpl; try discriminate; intros _ _; eauto.
Qed.

(** Between two numbers that are not NaN, [x < y] fails exactly when
    [y <= x] holds. *)
Lemma ltb_false_leb (x y : Num.number) :
  Num.isNaN x = false -> Num.isNaN y = false ->
  (Num.ltb x y = false <-> Num.leb y x = true).
Proof.
  intros Hx Hy. unfold Num.ltb, Num.leb, SFltb, SFleb.
  rewrite (SFcompare_swap x y).
  destruct (SFcompare_defined x y Hx Hy) as (c & ->).
  destruct c; simpl; split; congruence.
Qed.

End NumberFacts.

(** C2, as the code has it.  With a range whose bounds are numbers (not
    NaN), an annotation passes the range check exactly when the number read
    from its decoded value is not NaN and lies between the bounds, both
    included.  That number is the value itself when it is a number, and
    what [parseFloat] reads at the head of the text when it is a text: a
    text passes if it starts with a number in the range, and a text that
    starts with no number never passes. *)
Theorem rangeCheck_reads_leading_number (criteria : Criteria.t)
    (r : Criteria.range) (fact : Fact.t) :
  Criteria.valueRange criteria = Some r ->
  Num.isNaN (Criteria.min r) = false ->
  Num.isNaN (Criteria.max r) = false ->
  (rangeCheck criteria fact = true <->
   Num.isNaN (numValue (Fact.value fact)) = false /\
   Num.leb (Criteria.min r) (numValue (Fact.value fact)) = true /\
   Num.leb (numValue (Fact.value fact)) (Criteria.max r) = true)
  /\
  (forall n, Fact.value fact = VNum n -> numValue (Fact.value fact) = n)
  /\
  (forall s, Fact.value fact = VStr s ->
     numValue (Fact.value fact) = Num.parseFloat s /\
     (Num.isNaN (Num.parseFloat s) = true -> rangeCheck criteria fact = false)).
Proof.
  intros Hr Hmin Hmax.
  assert (Hiff : rangeCheck criteria fact = true <->
            Num.isNaN (numValue (Fact.value fact)) = false /\
            Num.leb (Criteria.min r) (numValue (Fact.value fact)) = true /\
            Num.leb (numValue (Fact.value fact)) (Criteria.max r) = true).
  { unfold rangeCheck. rewrite Hr.
    set (n := numValue (Fact.value fact)).
    destruct (Num.isNaN n) eqn:En; simpl.
    - split; [discriminate | intros [? _]; discriminate].
    - rewrite <- (ltb_false_leb n (Criteria.min r) En Hmin).
      rewrite <- (ltb_false_leb (Criteria.max r) n Hmax En).
      rewrite negb_true_iff, orb_false_iff. tauto. }
  split; [exact Hiff|]. split.
  - intros n ->. reflexivity.
  - intros s Hs. rewrite Hs. split; [reflexivity|].
    intros Hnan. apply not_true_is_false. intros Ht.
    apply Hiff in Ht as [Ht _]. rewrite Hs in Ht. simpl in Ht. congruence.
Qed.

Lemma rangeCheck_reads_leading_number_witness :
  Criteria.valueRange noteCriteria
    = Some (Criteria.Range (Num.ofZ 600) (Num.ofZ 700)) /\
  Num.isNaN (Num.ofZ 600) = false /\ Num.isNaN (Num.ofZ 700) = false /\
  (rangeCheck noteCriteria noteFact = true <->
   Num.isNaN (numValue (Fact.value noteFact)) = false /\
   Num.leb (Num.ofZ 600) (numValue (Fact.value noteFact)) = true /\
   Num.leb (numValue (Fact.value noteFact)) (Num.ofZ 700) = true).
Proof.
  assert (H1 : Num.isNaN (Num.ofZ 600) = false) by (vm_compute; reflexivity).
  assert (H2 : Num.isNaN (Num.ofZ 700) = false) by (vm_compute; reflexivity).
  split; [reflexivity | split; [exact H1 | split; [exact H2|]]].
  exact (proj1 (rangeCheck_reads_leading_number noteCriteria
                  (Criteria.Range (Num.ofZ 600) (Num.ofZ 700)) noteFact
                  eq_refl H1 H2)).
Defined.

(** C2, as the specification has it, fails.  The free-text annotation
    [650 employees] decodes to a text, not to a number; the check of the
    specification rejects it, and the code lets it pass the range from 600
    to 700, next to an exact-value check on that same text. *)
Lemma text_value_passes_range_check :
  List.map Fact.value (extractFactsFromIxbrl noteMarkup) = [VStr "650 employees"] /\
  specRangeCheck (Criteria.Range (Num.ofZ 600) (Num.ofZ 700))
                 (VStr "650 employees") = false /\
  List.map (rangeCheck noteCriteria) (extractFactsFromIxbrl noteMarkup) = [true] /\
  List.map (valueCheck noteCriteria) (extractFactsFromIxbrl noteMarkup) = [true] /\
  List.map (fun m => Fact.value (Matched.fact m))
           (findDimensionalFacts (extractFactsFromIxbrl noteMarkup)
                                 sampleContexts noteCriteria)
    = [VStr "650 employees"].
Proof. vm_compute. repeat split; reflexivity. Qed.

(** ** Text that is not a number *)

(** C3, as the code has it.  A numeric-fraction annotation whose text, the
    commas removed, is not a number decodes to the number zero, multiplied
    by ten to the scale when the annotation has one.  A ratio-fraction
    annotation whose text, as it stands, is not a number decodes to that
    text. *)
Theorem unparsable_text_decoding (htmlContent : string) (fact : Fact.t) :
  In fact (extractFactsFromIxbrl htmlContent) ->
  (Fact.factType fact = "nonFraction" ->
   Num.isNaN (Num.parseFloat (Str.removeCommas (Fact.valueRaw fact))) = true ->
   Fact.value fact =
     VNum (match Fact.scale fact with
           | Some (String _ _ as sc) => Num.mul Num.zero (Num.pow10 (Num.parseInt sc))
           | _ => Num.zero
           end))
  /\
  (Fact.factType fact = "fraction" ->
   Num.isNaN (Num.parseFloat (Fact.valueRaw fact)) = true ->
   Fact.value fact = VStr (Fact.valueRaw fact)).
Proof.
  intros H.
  destruct (extractFactsFromIxbrl_In _ _ H) as [(m & _ & ->) | [(m & _ & ->) | (m & _ & ->)]].
  - split; [|rewrite factType_nonFraction; discriminate].
    intros _. unfold nonFractionFact. destruct (parseXbrlName _). simpl.
    intros Hnan. unfold parseNumericValue.
    destruct (Num.parseFloat _); try discriminate. reflexivity.
  - split; [rewrite factType_fraction; discriminate|].
    intros _. unfold fractionFact. destruct (parseXbrlName _). simpl.
    intros Hnan. destruct (Num.parseFloat _); try discriminate. reflexivity.
  - split; rewrite factType_nonNumeric; discriminate.
Qed.

Lemma unparsable_text_decoding_witness :
  In (fractionFact (hd noMatch (execAll fractionPattern ratioMarkup)))
     (extractFactsFromIxbrl ratioMarkup) /\
  Fact.value (fractionFact (hd noMatch (execAll fractionPattern ratioMarkup)))
    = VStr "n/a".
Proof.
  assert (Hin : In (fractionFact (hd noMatch (execAll fractionPattern ratioMarkup)))
                   (extractFactsFromIxbrl ratioMarkup))
    by (vm_compute; left; reflexivity).
  split; [exact Hin|].
  refine (proj2 (unparsable_text_decoding ratioMarkup _ Hin) _ _);
    vm_compute; reflexivity.
Defined.

(** C3, as the specification has it, fails for the ratio-fraction kind: the
    text [n/a] is not a number, and the annotation decodes to the text, not
    to zero. *)
Lemma ratio_text_is_not_zero :
  List.map Fact.factType (extractFactsFromIxbrl ratioMarkup) = ["fraction"] /\
  List.map Fact.value (extractFactsFromIxbrl ratioMarkup) = [VStr "n/a"] /\
  ~ Forall specLenientZero (extractFactsFromIxbrl ratioMarkup).
Proof.
  split; [vm_compute; reflexivity | split; [vm_compute; reflexivity|]].
  intros H. apply Forall_inv in H. unfold specLenientZero in H.
  assert (Hnan : Num.isNaN (Num.parseFloat (Str.removeCommas (Fact.valueRaw
            (hd revenueFact (extractFactsFromIxbrl ratioMarkup))))) = true)
    by (vm_compute; reflexivity).
  apply H in Hnan. vm_compute in Hnan. discriminate.
Qed.

(** ** The context resolver *)

(** C7. The period of a context block: an instant, with its date, when the
    block has an instant marker; otherwise a duration, with its two dates,
    when it has a start marker and an end marker; otherwise unknown, with
    no date at all, as for a block with a start marker and no end marker.
    A marker is an element of the block whose text has no [<]; where a
    block has several of one kind, the date is that of the leftmost. *)
Theorem extractPeriodFromContext_cases (contextContent : string) :
  (forall d, firstElement "instant" d contextContent ->
     extractPeriodFromContext contextContent
       = Period.Build "instant" None None (Some d))
  /\
  (forall s e, ~ hasElement "instant" contextContent ->
     firstElement "startDate" s contextContent ->
     firstElement "endDate" e contextContent ->
     extractPeriodFromContext contextContent
       = Period.Build "duration" (Some s) (Some e) None)
  /\
  (~ hasElement "instant" contextContent ->
   ~ hasElement "startDate" contextContent \/ ~ hasElement "endDate" contextContent ->
   extractPeriodFromContext contextContent = Period.Build "unknown" None None None).
Proof.
  assert (Hnone : forall tag, ~ hasElement tag contextContent ->
                              matchFirst (element tag) contextContent = None).
  { intros tag H. destruct (matchFirst (element tag) contextContent) eqn:E; [|reflexivity].
    exfalso. apply H, hasElement_matchFirst. congruence. }
  unfold extractPeriodFromContext. cbv zeta. repeat split.
  - intros d Hd. apply firstElement_matchFirst in Hd as (m & -> & <-). reflexivity.
  - intros s e Hi Hs He. rewrite (Hnone _ Hi).
    apply firstElement_matchFirst in Hs as (ms & -> & <-).
    apply firstElement_matchFirst in He as (me & -> & <-). reflexivity.
  - intros Hi [H | H]; rewrite (Hnone _ Hi), (Hnone _ H); [reflexivity|].
    now destruct (matchFirst (element "startDate") contextContent).
Qed.

Lemma extractPeriodFromContext_cases_witness :
  ~ hasElement "instant" openPeriod /\
  hasElement "startDate" openPeriod /\
  ~ hasElement "endDate" openPeriod /\
  extractPeriodFromContext openPeriod = Period.Build "unknown" None None None.
Proof.
  assert (Hi : ~ hasElement "instant" openPeriod)
    by (apply matchFirst_element_none; vm_compute; reflexivity).
  assert (He : ~ hasElement "endDate" openPeriod)
    by (apply matchFirst_element_none; vm_compute; reflexivity).
  split; [exact Hi | split; [|split; [exact He|]]].
  - apply hasElement_matchFirst. vm_compute. discriminate.
  - exact (proj2 (proj2 (extractPeriodFromContext_cases openPeriod)) Hi (or_intror He)).
Defined.

Lemma extractContextsFromIxbrl_fold (htmlContent : string) :
  extractContextsFromIxbrl htmlContent
    = foldl storeContext ∅ (contextMatches htmlContent).
Proof. unfold extractContextsFromIxbrl, contextMatches. now rewrite foldl_app. Qed.

Lemma foldl_storeContext_other (ms : list mresult)
    (contexts : gmap string Context.t) (k : string) :
  (forall m, In m ms -> group 1 m <> k) ->
  foldl storeContext contexts ms !! k = contexts !! k.
Proof.
  revert contexts. induction ms as [|m ms IH]; intros contexts H; simpl; [reflexivity|].
  rewrite IH by (intros m' Hm'; apply H; now right).
  unfold storeContext. apply lookup_insert_ne. apply H. now left.
Qed.

(** C8. When several context blocks declare one identifier, in one
    vocabulary or in both, the mapping has one record for the identifier:
    that of the last of them in the order of the two scans (the blocks of
    the inline vocabulary, then those of the legacy one).  The resolver is
    a total function: a collision is no error. *)
Theorem duplicate_context_last_wins (htmlContent : string)
    (before after : list mresult) (m : mresult) :
  contextMatches htmlContent = (before ++ m :: after)%list ->
  (forall m', In m' after -> group 1 m' <> group 1 m) ->
  extractContextsFromIxbrl htmlContent !! group 1 m = Some (contextRecord m).
Proof.
  intros Hms Hlast. rewrite extractContextsFromIxbrl_fold, Hms, foldl_app. simpl.
  rewrite foldl_storeContext_other by exact Hlast.
  unfold storeContext. apply lookup_insert_eq.
Qed.

Lemma duplicate_context_last_wins_witness :
  contextMatches duplicateMarkup = ([duplicateFirst] ++ duplicateLast :: [])%list /\
  group 1 duplicateFirst = "c1" /\ group 1 duplicateLast = "c1" /\
  extractContextsFromIxbrl duplicateMarkup !! "c1" = Some (contextRecord duplicateLast).
Proof.
  assert (H : contextMatches duplicateMarkup
              = ([duplicateFirst] ++ duplicateLast :: [])%list)
    by (vm_compute; reflexivity).
  split; [exact H | split; [vm_compute; reflexivity | split; [vm_compute; reflexivity|]]].
  change "c1" with (group 1 duplicateLast) at 1.
  apply (duplicate_context_last_wins duplicateMarkup [duplicateFirst] [] duplicateLast H).
  intros m' [].
Defined.

(** The order is that of the two scans, not that of the document: the
    legacy block wins also when it comes first. *)
Lemma legacy_block_wins_when_first :
  Context.period <$> (extractContextsFromIxbrl duplicateMarkupLegacyFirst !! "c1")
    = Some (Period.Build "duration" (Some "2025-01-01") (Some "2025-03-30") None).
Proof. vm_compute. reflexivity. Qed.

(** ** More on the fact matcher *)



(** X1. The matcher keeps the order of the annotations and invents none:
    the facts of the results are a sublist of the facts that it is given,
    so the results are never more than the facts. *)
Theorem findDimensionalFacts_keeps_order (facts : list Fact.t)
    (contexts : gmap string Context.t) (criteria : Criteria.t) :
  sublist (Matched.fact <$> findDimensionalFacts facts contexts criteria) facts
  /\ length (findDimensionalFacts facts contexts criteria) <= length facts.
Proof.
  assert (H : sublist (Matched.fact <$> findDimensionalFacts facts contexts criteria) facts).
  { unfold findDimensionalFacts. induction facts as [|f l IH]; cbn.
    - constructor.
    - destruct (matchFact contexts criteria f) as [m|] eqn:E; cbn.
      + rewrite (matched_fact _ _ _ _ E). now apply sublist_skip.
      + now apply sublist_cons. }
  split; [exact H|].
  apply sublist_length in H. now rewrite length_fmap in H.
Qed.



(** X3. Matching is idempotent: the facts of the results, matched again
    against the same contexts with the same criteria, give the same
    results. *)
Theorem findDimensionalFacts_idempotent (facts : list Fact.t)
    (contexts : gmap string Context.t) (criteria : Criteria.t) :
  findDimensionalFacts (Matched.fact <$> findDimensionalFacts facts contexts criteria)
                       contexts criteria
  = findDimensionalFacts facts contexts criteria.
Proof.
  unfold findDimensionalFacts. induction facts as [|f l IH]; cbn; [reflexivity|].
  destruct (matchFact contexts criteria f) as [m|] eqn:E; cbn; [|exact IH].
  rewrite (matched_fact _ _ _ _ E), E. cbn. now rewrite IH.
Qed.






(** ** More on the context resolver *)

Section LastWins.

Context {V : Type}.
Variable key : mresult -> string.
Variable val : mresult -> V.

(** A loop that stores each match under its key: a key has the value of
    the last match that has it. *)
Lemma foldl_insert_lookup (ms : list mresult) (base : gmap string V) (k : string) :
  foldl (fun acc m => <[key m := val m]> acc) base ms !! k =
  match last (filter (fun m => key m = k) ms) with
  | Some m => Some (val m)
  | None => base !! k
  end.
Proof.
  induction ms as [|m ms IH] using rev_ind; [reflexivity|].
  rewrite foldl_app, filter_app. cbn [foldl].
  destruct (decide (key m = k)) as [E|E].
  - rewrite filter_cons_True by exact E. rewrite filter_nil, last_snoc.
    rewrite <- E. apply lookup_insert_eq.
  - rewrite filter_cons_False by exact E. rewrite filter_nil, app_nil_r.
    rewrite lookup_insert_ne by exact E. exact IH.
Qed.

Lemma foldl_insert_size (ms : list mresult) (base : gmap string V) :
  size (foldl (fun acc m => <[key m := val m]> acc) base ms) <= size base + length ms.
Proof.
  revert base. induction ms as [|m ms IH]; intros base; cbn [foldl length]; [lia|].
  etransitivity; [apply IH|].
  destruct (base !! key m) eqn:E.
  - rewrite map_size_insert_Some by eauto. lia.
  - rewrite map_size_insert_None by exact E. lia.
Qed.

End LastWins.

Ltac open_getDimensionalFacts :=
  unfold getDimensionalFacts, parseXbrlInstance;
  cbn [DimensionalFacts.matchingFacts DimensionalFacts.totalFacts
       DimensionalFacts.totalContexts XbrlData.facts XbrlData.contexts].

Lemma omap_length_le {A B : Type} (f : A -> option B) (l : list A) :
  length (omap f l) <= length l.
Proof.
  induction l as [|a l IH]; [reflexivity|].
  change (omap f (a :: l)) with (match f a with Some y => y :: omap f l | None => omap f l end).
  destruct (f a); cbn [length]; lia.
Qed.





(** X9. The contexts of the legacy reader are contexts of the inline
    reader: on one document, every record of [extractContextsFromXml] is
    the record that [extractContextsFromIxbrl] has under the same
    identifier. *)
Theorem legacy_contexts_are_kept (content : string) :
  extractContextsFromXml content ⊆ extractContextsFromIxbrl content.
Proof.
  apply map_subseteq_spec. intros id r.
  unfold extractContextsFromXml, extractContextsFromIxbrl, storeContext.
  rewrite !(foldl_insert_lookup (group 1) contextRecord).
  destruct (last _) as [m|]; [trivial|]. now rewrite lookup_empty.
Qed.

(** X10. The counts that [getDimensionalFacts] reports: the matching facts
    are never more than the facts of the document, and the contexts never
    more than its context blocks (two blocks with one identifier count
    once). *)
Theorem getDimensionalFacts_counts (htmlContent : string) (criteria : Criteria.t) :
  let r := getDimensionalFacts htmlContent criteria in
  length (DimensionalFacts.matchingFacts r) <= DimensionalFacts.totalFacts r /\
  DimensionalFacts.totalFacts r = length (extractFactsFromIxbrl htmlContent) /\
  DimensionalFacts.totalContexts r <= length (contextMatches htmlContent).
Proof.
  cbv zeta. open_getDimensionalFacts. split; [|split; [reflexivity|]].
  - unfold findDimensionalFacts. apply omap_length_le.
  - rewrite extractContextsFromIxbrl_fold. unfold storeContext.
    etransitivity; [apply (foldl_insert_size (group 1) contextRecord)|].
    rewrite map_size_empty. lia.
Qed.



(** ** The matcher finds a match where the pattern has a run *)

Section Completeness.

Variable ci : bool.

Lemma orElse_not_None_l (a : option mstate) (b : unit -> option mstate) :
  a <> None -> orElse a b <> None.
Proof. destruct a; [discriminate | contradiction]. Qed.

Lemma orElse_not_None_r (a : option mstate) (b : unit -> option mstate) :
  b tt <> None -> orElse a b <> None.
Proof. destruct a; [discriminate | trivial]. Qed.

Lemma run_same_length (r : regex) (x y : mstate) :
  run ci r x y -> String.length (rest y) = String.length (rest x) -> rest y = rest x.
Proof.
  intros H L. apply run_rest in H as (p & E). rewrite E in L |- *.
  rewrite length_app_str in L. destruct p; [reflexivity | cbn in L; lia].
Qed.

(** The captures are written and never read: a run from a state gives a
    match from every state with the same text, whatever the captures, as
    long as the continuation accepts the text that the run leaves. *)
Lemma matchRe_complete (r : regex) (x y : mstate) :
  run ci r x y ->
  forall x' k, rest x' = rest x ->
    (forall y', rest y' = rest y -> k y' <> None) ->
    matchRe ci r x' k <> None.
Proof.
  induction 1 as [s x t E | c x a t E Hc | r1 r2 x y z _ IH1 _ IH2 | g r x
                  | g r x y z Hb IHb _ IHs | r x | r x y Hb IHb | i r x y _ IH];
    intros x' k Hx Hk.
  - cbn [matchRe]. rewrite Hx, E. now apply Hk.
  - cbn [matchRe]. rewrite Hx, E, Hc. now apply Hk.
  - cbn [matchRe]. apply IH1; [exact Hx|]. intros y' Hy. now apply IH2.
  - rewrite matchRe_star. cbv zeta.
    destruct g; [apply orElse_not_None_r | apply orElse_not_None_l]; now apply Hk.
  - destruct (Nat.eq_dec (String.length (rest y)) (String.length (rest x))) as [L|L].
    + apply (run_same_length _ _ _ Hb) in L. cbn [clearCaps rest] in L.
      apply IHs; [congruence | exact Hk].
    + assert (Hagain : matchRe ci r (clearCaps (groups r) x')
                (progress x' (fun y0 => matchRe ci (Star g r) y0 k)) <> None).
      { apply IHb; [exact Hx|]. intros y' Hy. unfold progress.
        rewrite Hy, Hx. cbn [clearCaps rest] in L.
        apply Nat.eqb_neq in L. rewrite L. now apply IHs. }
      rewrite matchRe_star. cbv zeta. destruct g.
      * now apply orElse_not_None_l.
      * destruct (k x') eqn:Ek; [discriminate|]. exact Hagain.
  - cbn [matchRe]. apply orElse_not_None_r. now apply Hk.
  - cbn [matchRe].
    destruct (Nat.eq_dec (String.length (rest y)) (String.length (rest x))) as [L|L].
    + apply (run_same_length _ _ _ Hb) in L. cbn [clearCaps rest] in L.
      apply orElse_not_None_r. apply Hk. congruence.
    + apply orElse_not_None_l. apply IHb; [exact Hx|]. intros y' Hy. unfold progress.
      rewrite Hy, Hx. cbn [clearCaps rest] in L.
      apply Nat.eqb_neq in L. rewrite L. now apply Hk.
  - cbn [matchRe]. apply IH; [exact Hx|]. intros y' Hy. apply Hk. exact Hy.
Qed.

End Completeness.

(** ** The optional attributes of a numeric-fraction annotation *)

Section OptionalAttributes.

Lemma length_map_str (f : ascii -> ascii) (s : string) :
  String.length (Str.map f s) = String.length s.
Proof. induction s as [|c s IH]; cbn; congruence. Qed.

(** An optional attribute after a greedy [[^>]*]: the group of the
    attribute is set only from a text with a [>] in it.  The star first
    takes the longest text without [>]; with the attribute in that text,
    the rest of the pattern matches after it as it does after the
    attribute, and the group is passed over. *)
Lemma optional_attr_needs_gt (l1 l2 : list regex) (name : string) (i n : nat)
    (s : string) (y : mstate) (v : string) :
  matchRe true (seqs (l1 ++ notGt :: Opt (attr name i) :: l2))
          (MState s (replicate n None)) Some = Some y ->
  allCls true (NotChar ">") (dq (name +:+ "='")) = true ->
  i < n -> ~ In i (groups (seqs l1)) -> ~ In i (groups (seqs l2)) ->
  caps y !! i = Some (Some v) ->
  Str.count ">" v <> 0.
Proof.
  intros E Hname Hi H1 H2 Hcap Hcount.
  apply matchRe_seqs_app_sound in E as (x9 & Hfront & E); [|discriminate].
  assert (C9 : caps x9 !! i = Some None).
  { rewrite (run_caps_other _ _ _ _ _ Hfront H1). cbn [caps].
    now apply lookup_replicate_2. }
  destruct x9 as [s9 c9]. cbn [caps] in C9.
  change (seqs (notGt :: Opt (attr name i) :: l2))
    with (Seq notGt (seqs (Opt (attr name i) :: l2))) in E.
  change (matchRe true (Seq notGt (seqs (Opt (attr name i) :: l2))) (MState s9 c9) Some)
    with (matchRe true notGt (MState s9 c9)
            (fun y0 => matchRe true (seqs (Opt (attr name i) :: l2)) y0 Some)) in E.
  unfold notGt at 1 in E. rewrite matchRe_star_cls in E.
  apply starCls_longest in E as (d & t & -> & Hd & Hk & Hmax).
  apply matchRe_sound in Hk as (y' & Hr & [= ->]).
  apply run_seqs_cons in Hr as (x10 & Ho & Hr).
  rewrite (run_caps_other _ _ _ _ _ Hr H2) in Hcap.
  inversion Ho as [| | | | | r x' | r x' y0 Ht |]; subst.
  { cbn [caps] in Hcap. congruence. }
  apply (run_attr_cls ">") in Ht as (U & v' & q & Et & LU & HU & Hq & Hv).
  2:{ rewrite clearCaps_length. cbn [caps]. apply lookup_lt_Some in C9. exact C9. }
  rewrite Hv in Hcap. injection Hcap as ->. cbn [rest clearCaps] in Et.
  specialize (Hmax (d +:+ U +:+ v +:+ q) (rest x10)).
  apply (matchRe_complete true (seqs (Opt (attr name i) :: l2)) x10 y)
    with (x' := MState (rest x10) c9) (k := Some).
  - apply run_seqs_cons. exists x10. split; [apply run_opt_skip | exact Hr].
  - reflexivity.
  - discriminate.
  - apply Hmax.
    + rewrite Et, !app_assoc_str. reflexivity.
    + rewrite !allCls_app, Hd, HU, Hname, Hq.
      apply allCls_notGt in Hcount. rewrite Hcount. reflexivity.
    + rewrite !length_app_str, LU. unfold dq. rewrite length_map_str, length_app_str.
      cbn. lia.
Qed.

Lemma nonFraction_optional_group (htmlContent : string) (m : mresult) (i : nat) (v : string) :
  In m (execAll nonFractionPattern htmlContent) ->
  i = 3 \/ i = 4 \/ i = 5 ->
  capture i m = Some v ->
  Str.count ">" v <> 0.
Proof.
  intros Hin Hi Hcap.
  apply execLoop_matchAt in Hin as (t & m0 & Hm & Hc).
  unfold matchAt in Hm.
  destruct (matchRe _ _ _ _) as [y|] eqn:E; [|discriminate].
  injection Hm as <-. cbn [captures] in Hc.
  unfold capture in Hcap. rewrite Hc in Hcap. clear Hc m.
  change (ignoreCase nonFractionPattern) with true in E.
  change (ngroups nonFractionPattern) with 6 in E.
  assert (Hv : caps y !! i = Some (Some v)).
  { destruct (caps y !! i) as [o|]; cbn in Hcap; congruence. }
  destruct Hi as [-> | [-> | ->]].
  - change (source nonFractionPattern)
      with (seqs ([Lit "<ix:nonFraction"; notGt; attr "name" 1; notGt; attr "contextRef" 2]
                  ++ notGt :: Opt (attr "unitRef" 3)
                  :: [notGt; Opt (attr "decimals" 4); notGt; Opt (attr "scale" 5); notGt;
                      Lit ">"; Grp 6 notLt; Lit "</ix:nonFraction>"])) in E.
    apply (optional_attr_needs_gt _ _ _ _ _ _ _ _ E); try (no_group); try exact Hv;
      try reflexivity; lia.
  - change (source nonFractionPattern)
      with (seqs ([Lit "<ix:nonFraction"; notGt; attr "name" 1; notGt; attr "contextRef" 2;
                   notGt; Opt (attr "unitRef" 3)]
                  ++ notGt :: Opt (attr "decimals" 4)
                  :: [notGt; Opt (attr "scale" 5); notGt;
                      Lit ">"; Grp 6 notLt; Lit "</ix:nonFraction>"])) in E.
    apply (optional_attr_needs_gt _ _ _ _ _ _ _ _ E); try (no_group); try exact Hv;
      try reflexivity; lia.
  - change (source nonFractionPattern)
      with (seqs ([Lit "<ix:nonFraction"; notGt; attr "name" 1; notGt; attr "contextRef" 2;
                   notGt; Opt (attr "unitRef" 3); notGt; Opt (attr "decimals" 4)]
                  ++ notGt :: Opt (attr "scale" 5)
                  :: [notGt; Lit ">"; Grp 6 notLt; Lit "</ix:nonFraction>"])) in E.
    apply (optional_attr_needs_gt _ _ _ _ _ _ _ _ E); try (no_group); try exact Hv;
      try reflexivity; lia.
Qed.

End OptionalAttributes.

(** X12. The optional attributes of a numeric-fraction annotation are not
    read from the markup.  For every document, a numeric-fraction fact has
    the unit USD, no decimals and no scale, whatever its tag declares; the
    one exception is a value taken for an attribute that has a [>] in
    it. *)
Theorem nonFraction_attributes_are_not_read (htmlContent : string) (fact : Fact.t) :
  In fact (extractFactsFromIxbrl htmlContent) ->
  Fact.factType fact = "nonFraction" ->
  (Fact.unitRef fact = Some "USD" \/
   exists u, Fact.unitRef fact = Some u /\ Str.count ">" u <> 0) /\
  (Fact.decimals fact = None \/
   exists d, Fact.decimals fact = Some d /\ Str.count ">" d <> 0) /\
  (Fact.scale fact = None \/
   exists sc, Fact.scale fact = Some sc /\ Str.count ">" sc <> 0).
Proof.
  intros H Ht.
  destruct (extractFactsFromIxbrl_In _ _ H) as [(m & Hm & ->) | [(m & _ & ->) | (m & _ & ->)]].
  - unfold nonFractionFact. destruct (parseXbrlName _).
    cbn [Fact.unitRef Fact.decimals Fact.scale].
    pose proof (fun i v Hi => nonFraction_optional_group htmlContent m i v Hm Hi) as G.
    repeat split.
    + destruct (capture 3 m) as [u|] eqn:E; [|now left].
      right. exists u. assert (Hu : Str.count ">" u <> 0) by (apply (G 3); auto).
      split; [|exact Hu]. destruct u; [now cbn in Hu | reflexivity].
    + destruct (capture 4 m) as [d|] eqn:E; [|now left].
      right. exists d. split; [reflexivity|]. apply (G 4); auto.
    + destruct (capture 5 m) as [sc|] eqn:E; [|now left].
      right. exists sc. split; [reflexivity|]. apply (G 5); auto.
  - rewrite factType_fraction in Ht. discriminate.
  - rewrite factType_nonNumeric in Ht. discriminate.
Qed.

Lemma nonFraction_attributes_are_not_read_witness :
  In (nonFractionFact sharesMatch) (extractFactsFromIxbrl sharesMarkup) /\
  hasAttr "decimals" sharesMarkup = true /\
  Fact.decimals (nonFractionFact sharesMatch) = None.
Proof.
  assert (H : In (nonFractionFact sharesMatch) (extractFactsFromIxbrl sharesMarkup))
    by (vm_compute; left; reflexivity).
  split; [exact H | split; [vm_compute; reflexivity|]].
  destruct (proj1 (proj2 (nonFraction_attributes_are_not_read sharesMarkup _ H eq_refl)))
    as [E | (d & E & Hd)]; [exact E|].
  exfalso. vm_compute in E. discriminate.
Defined.

(** ** Documents without annotations or without context blocks *)

Section LiteralHead.

Lemma toLowerCase_app (a b : string) :
  Str.toLowerCase (a +:+ b) = Str.toLowerCase a +:+ Str.toLowerCase b.
Proof.
  unfold Str.toLowerCase. induction a as [|c a IH]; [reflexivity|].
  rewrite app_cons_str. cbn [Str.map]. now rewrite IH, app_cons_str.
Qed.

Lemma toLower_canonicalize (a : ascii) :
  Char.toLower (Char.canonicalize a) = Char.toLower a.
Proof. destruct a as [[] [] [] [] [] [] [] []]; reflexivity. Qed.

Lemma charEq_toLower (a b : ascii) :
  charEq true a b = true -> Char.toLower a = Char.toLower b.
Proof.
  unfold charEq. intros H. apply eqb_char_eq in H.
  rewrite <- (toLower_canonicalize a), <- (toLower_canonicalize b). now rewrite H.
Qed.

(** A literal matched without regard to letter case: the text read has
    the small letters of the literal. *)
Lemma stripPrefix_toLowerCase (p s t : string) :
  Str.stripPrefix (charEq true) p s = Some t ->
  exists p', s = p' +:+ t /\ Str.toLowerCase p' = Str.toLowerCase p.
Proof.
  revert s. induction p as [|a p IH]; intros s H.
  - injection H as <-. now exists EmptyString.
  - destruct s as [|b s]; [discriminate|]. cbn [Str.stripPrefix] in H.
    destruct (charEq true a b) eqn:E; [|discriminate].
    apply IH in H as (p' & -> & Hp). exists (String b p'). split; [reflexivity|].
    unfold Str.toLowerCase in *. cbn [Str.map]. rewrite Hp.
    now rewrite (charEq_toLower _ _ E).
Qed.

(** A match of a pattern that starts with a literal starts with the
    literal. *)
Lemma found_literal_head (re : regexp) (h : string) (rs : list regex)
    (s : string) (m : mresult) :
  source re = seqs (Lit h :: rs) -> found re s m ->
  exists pre t t',
    s = pre +:+ t /\ Str.stripPrefix (charEq (ignoreCase re)) h t = Some t'.
Proof.
  intros Hs (pre & y & -> & Hr & _). rewrite Hs in Hr.
  apply run_seqs_cons in Hr as (x1 & Hl & _).
  inversion Hl as [p x t E | | | | | | |]; subst. cbn [rest] in E. eauto.
Qed.


Lemma execAll_needs_head_ci (re : regexp) (h : string) (rs : list regex) (s : string) :
  source re = seqs (Lit h :: rs) -> ignoreCase re = true ->
  Str.includes (Str.toLowerCase s) (Str.toLowerCase h) = false -> execAll re s = [].
Proof.
  intros Hs Hi Hn. destruct (execAll re s) as [|m l] eqn:E; [reflexivity|].
  exfalso. assert (Hm : In m (execAll re s)) by (rewrite E; now left).
  apply execAll_found, (found_literal_head _ _ _ _ _ Hs) in Hm as (pre & t & t' & -> & Hp).
  rewrite Hi in Hp. apply stripPrefix_toLowerCase in Hp as (p' & -> & Hp).
  rewrite !toLowerCase_app, Hp in Hn.
  assert (Str.includes (Str.toLowerCase pre +:+ Str.toLowerCase h +:+ Str.toLowerCase t')
                       (Str.toLowerCase h) = true) by (apply includes_spec; eauto).
  congruence.
Qed.

Lemma includes_longer (s p q : string) :
  Str.includes s p = false -> Str.includes s (p +:+ q) = false.
Proof.
  intros H. destruct (Str.includes s (p +:+ q)) eqn:E; [|reflexivity].
  apply includes_spec in E as (a & b & ->).
  assert (Str.includes (a +:+ (p +:+ q) +:+ b) p = true).
  { apply includes_spec. exists a, (q +:+ b). now rewrite app_assoc_str. }
  congruence.
Qed.


End LiteralHead.


(** X13. A document without the text [<ix:], in any letter case, has no
    facts: the extractor returns the empty list. *)
Theorem no_inline_tag_no_facts (htmlContent : string) :
  Str.includes (Str.toLowerCase htmlContent) "<ix:" = false ->
  extractFactsFromIxbrl htmlContent = [].
Proof.
  intros H. unfold extractFactsFromIxbrl.
  rewrite (execAll_needs_head_ci nonFractionPattern "<ix:nonFraction" _ htmlContent eq_refl eq_refl),
          (execAll_needs_head_ci fractionPattern "<ix:fraction" _ htmlContent eq_refl eq_refl),
          (execAll_needs_head_ci nonNumericPattern "<ix:nonNumeric" _ htmlContent eq_refl eq_refl);
    [reflexivity | | |].
  - exact (includes_longer _ "<ix:" "nonnumeric" H).
  - exact (includes_longer _ "<ix:" "fraction" H).
  - exact (includes_longer _ "<ix:" "nonfraction" H).
Qed.

Lemma no_inline_tag_no_facts_witness :
  Str.includes (Str.toLowerCase openPeriod) "<ix:" = false /\
  extractFactsFromIxbrl openPeriod = [].
Proof.
  assert (H : Str.includes (Str.toLowerCase openPeriod) "<ix:" = false)
    by (vm_compute; reflexivity).
  split; [exact H|]. exact (no_inline_tag_no_facts openPeriod H).
Defined.



(** ** The links of a filing index and the entity of a context *)

Section Captures.

Lemma allCls_count (ci : bool) (c : ascii) (d : string) :
  (forall a, charEq ci c a = Char.eqb c a) ->
  allCls ci (NotChar c) d = true <-> Str.count c d = 0.
Proof.
  intros Hc. induction d as [|a d IH]; [cbn; tauto|].
  cbn [allCls Str.count clsMatch]. rewrite Hc. unfold Char.eqb.
  rewrite (Ascii.eqb_sym c a).
  destruct (Ascii.eqb a c); cbn; [split; [discriminate | lia] | exact IH].
Qed.

Lemma charEq_quote (a : ascii) : charEq true dquote a = Char.eqb dquote a.
Proof. destruct a as [[] [] [] [] [] [] [] []]; reflexivity. Qed.

(** What two runs in a row consume. *)
Lemma consumed_seq (ci : bool) (r1 r2 : regex) (x y z : mstate) :
  run ci r1 x y -> run ci r2 y z -> consumed x z = consumed x y +:+ consumed y z.
Proof.
  intros H1 H2.
  pose proof (run_consumed _ _ _ _ H1) as E1.
  pose proof (run_consumed _ _ _ _ H2) as E2.
  pose proof (run_consumed _ _ _ _ (run_seq _ _ _ _ _ _ H1 H2)) as E3.
  apply (app_inv_tail_str _ _ (rest z)).
  rewrite <- E3, app_assoc_str, <- E2. exact E1.
Qed.

(** The file name that [href='([^']*\.htm)'] captures: a stem without a
    quote, and the extension in some letter case. *)
Lemma href_capture (s : string) (fm : mresult) :
  matchFirst hrefPattern s = Some fm ->
  exists stem ext,
    group 1 fm = stem +:+ ext /\ Str.toLowerCase ext = ".htm" /\
    Str.count dquote stem = 0.
Proof.
  intros H. apply search_found in H as (pre & y & _ & Hr & Hc & _).
  change (ignoreCase hrefPattern) with true in Hr.
  change (source hrefPattern)
    with (seqs [Lit (dq "href='"); Grp 1 (Seq notQuote (Lit ".htm")); Lit (dq "'")]) in Hr.
  apply run_seqs_cons in Hr as (x1 & H1 & Hr).
  apply run_seqs_cons in Hr as (x2 & H2 & Hr).
  change (seqs [Lit (dq "'")]) with (Lit (dq "'")) in Hr.
  inversion Hr as [p x' t E | | | | | | |]; subst.
  inversion H2 as [| | | | | | | j r x' y2 Hv]; subst.
  pose proof (run_caps_length _ _ _ _ Hv) as L2.
  pose proof (run_caps_length _ _ _ _ H1) as L1. cbn [caps] in L1.
  inversion Hv as [| | r1 r2 x' z y' Hq Hl | | | | |]; subst.
  pose proof (consumed_seq _ _ _ _ _ _ Hq Hl) as Ec.
  destruct (run_star_cls _ _ _ _ _ Hq) as [Ha _].
  apply (allCls_count true dquote _ charEq_quote) in Ha.
  pose proof (run_consumed _ _ _ _ Hl) as El.
  inversion Hl as [p x' t' E' | | | | | | |]; subst. cbn [rest] in El.
  apply stripPrefix_toLowerCase in E' as (ext & E' & Hext).
  rewrite E' in El. apply app_inv_tail_str in El.
  exists (consumed x1 z), ext. split; [|split; [exact Hext | exact Ha]].
  cbn [caps rest] in *.
  unfold group, capture. rewrite Hc. unfold setCap.
  rewrite list_lookup_insert_eq by (rewrite L2, L1; cbn; lia).
  cbn [default from_option id]. rewrite Ec. now rewrite <- El.
Qed.

Lemma search_needs_head (re : regexp) (h : string) (rs : list regex) (s : string) :
  source re = seqs (Lit h :: rs) -> ignoreCase re = false ->
  Str.includes s h = false -> search re s = None.
Proof.
  intros Hs Hi Hn. destruct (search re s) as [m|] eqn:E; [|reflexivity].
  exfalso.
  apply search_found, (found_literal_head _ _ _ _ _ Hs) in E as (pre & t & t' & -> & Hp).
  rewrite Hi in Hp. apply stripPrefix_same_inv in Hp as ->.
  assert (Str.includes (pre +:+ h +:+ t') h = true) by (apply includes_spec; eauto).
  congruence.
Qed.

End Captures.

(** X15. The candidates that [findCompanySpecificPatterns] takes from a
    filing index: each is the target of a link, ends in [.htm] in some
    letter case, is shorter than 50 characters, and has neither [ex] nor
    [table] in it: a name such as [index.htm] is left out with the
    exhibits. *)
Theorem findCompanySpecificPatterns_candidates (indexHtml filename : string) :
  In filename (findCompanySpecificPatterns indexHtml) ->
  Str.includes filename "ex" = false /\
  Str.includes filename "table" = false /\
  String.length filename < 50 /\
  exists stem ext,
    filename = stem +:+ ext /\ Str.toLowerCase ext = ".htm" /\
    Str.count dquote stem = 0.
Proof.
  unfold findCompanySpecificPatterns. cbv zeta.
  generalize (List.map fullMatch (execAll htmLinkPattern indexHtml)). intros links.
  assert (G : forall acc,
    (forall f, In f acc ->
       Str.includes f "ex" = false /\ Str.includes f "table" = false /\
       String.length f < 50 /\
       exists stem ext, f = stem +:+ ext /\ Str.toLowerCase ext = ".htm" /\
                        Str.count dquote stem = 0) ->
    forall f,
      In f (foldl (fun patterns link =>
              match matchFirst hrefPattern link with
              | Some filenameMatch =>
                  if negb (Str.includes (group 1 filenameMatch) "ex")
                     && negb (Str.includes (group 1 filenameMatch) "exhibit")
                     && negb (Str.includes (group 1 filenameMatch) "table")
                     && (String.length (group 1 filenameMatch) <? 50)%nat
                  then (patterns ++ [group 1 filenameMatch])%list
                  else patterns
              | None => patterns
              end) acc links) ->
      Str.includes f "ex" = false /\ Str.includes f "table" = false /\
      String.length f < 50 /\
      exists stem ext, f = stem +:+ ext /\ Str.toLowerCase ext = ".htm" /\
                       Str.count dquote stem = 0).
  { induction links as [|link links IH]; intros acc Hacc f Hf; cbn [foldl] in Hf.
    - now apply Hacc.
    - apply (IH _) in Hf; [exact Hf|]. clear Hf f.
      destruct (matchFirst hrefPattern link) as [fm|] eqn:E; [|exact Hacc].
      destruct (negb (Str.includes (group 1 fm) "ex")) eqn:C1; [|exact Hacc].
      destruct (negb (Str.includes (group 1 fm) "exhibit")) eqn:C2; [|exact Hacc].
      destruct (negb (Str.includes (group 1 fm) "table")) eqn:C3; [|exact Hacc].
      destruct (String.length (group 1 fm) <? 50)%nat eqn:C4; [|exact Hacc].
      cbn [andb]. intros f Hf. apply in_app_or in Hf as [Hf | [<- | []]]; [now apply Hacc|].
      apply negb_true_iff in C1, C3. apply Nat.ltb_lt in C4.
      repeat split; try assumption. now apply href_capture in E. }
  apply G. intros f [].
Qed.

Lemma findCompanySpecificPatterns_candidates_witness :
  findCompanySpecificPatterns indexMarkup = ["jnj-20250330.htm"] /\
  Str.includes "jnj-20250330.htm" "ex" = false.
Proof.
  assert (E : findCompanySpecificPatterns indexMarkup = ["jnj-20250330.htm"])
    by (vm_compute; reflexivity).
  split; [exact E|].
  apply (findCompanySpecificPatterns_candidates indexMarkup "jnj-20250330.htm").
  rewrite E. left. reflexivity.
Defined.

(** X16. The identifier of an entity.  A block without the text
    [<xbrli:identifier] has none; an identifier that is found is the text,
    without a [<], of an identifier element of the block, whose opening tag
    may carry attributes. *)
Theorem extractEntityFromContext_identifier (contextContent : string) :
  (Str.includes contextContent "<xbrli:identifier" = false ->
   extractEntityFromContext contextContent = Entity.Build None)
  /\
  (forall d, Entity.identifier (extractEntityFromContext contextContent) = Some d ->
     Str.count "<" d = 0 /\
     exists pre attrs post,
       contextContent = pre +:+ "<xbrli:identifier" +:+ attrs +:+ ">" +:+ d
                            +:+ "</xbrli:identifier>" +:+ post /\
       Str.count ">" attrs = 0).
Proof.
  unfold extractEntityFromContext, matchFirst. split.
  - intros H.
    now rewrite (search_needs_head identifierPattern "<xbrli:identifier" _ _ eq_refl eq_refl H).
  - intros d H. destruct (search identifierPattern contextContent) as [m|] eqn:E;
      [|discriminate].
    cbn [Entity.identifier] in H. injection H as <-.
    apply search_found in E as (pre & y & -> & Hr & Hc & Hafter).
    change (ignoreCase identifierPattern) with false in Hr.
    change (source identifierPattern)
      with (seqs [Lit "<xbrli:identifier"; notGt; Lit ">"; Grp 1 notLt;
                  Lit "</xbrli:identifier>"]) in Hr.
    apply run_seqs_cons in Hr as (x1 & H1 & Hr).
    apply run_seqs_cons in Hr as (x2 & H2 & Hr).
    apply run_seqs_cons in Hr as (x3 & H3 & Hr).
    apply run_seqs_cons in Hr as (x4 & H4 & Hr).
    change (seqs [Lit "</xbrli:identifier>"]) with (Lit "</xbrli:identifier>") in Hr.
    inversion H1 as [p1 x' t1 E1 | | | | | | |]; subst. cbn [rest caps] in *.
    apply stripPrefix_same_inv in E1.
    pose proof (run_consumed _ _ _ _ H2) as E2. cbn [rest] in E2.
    destruct (run_star_cls _ _ _ _ _ H2) as [A2 C2]. cbn [caps] in C2.
    apply (allCls_count false ">" _ (fun a => eq_refl)) in A2.
    inversion H3 as [p3 x' t3 E3 | | | | | | |]; subst. cbn [rest caps] in *.
    apply stripPrefix_same_inv in E3.
    inversion H4 as [| | | | | | | j r x' y4 Hv]; subst.
    pose proof (run_consumed _ _ _ _ Hv) as E4. cbn [rest] in E4.
    destruct (run_star_cls _ _ _ _ _ Hv) as [A4 C4]. cbn [caps] in C4.
    apply (allCls_count false "<" _ (fun a => eq_refl)) in A4.
    inversion Hr as [p5 x' t5 E5 | | | | | | |]; subst. cbn [rest caps] in *.
    apply stripPrefix_same_inv in E5.
    assert (G : group 1 m = consumed (MState t3 (caps x2)) y4).
    { unfold group, capture. rewrite Hc. unfold setCap.
      rewrite list_lookup_insert_eq; [reflexivity|]. rewrite C4, C2. cbn. lia. }
    rewrite G.
    remember (consumed (MState t1 (replicate (S (ngroups identifierPattern)) None)) x2)
      as attrs eqn:Q2.
    remember (consumed (MState t3 (caps x2)) y4) as d eqn:Q4.
    split; [exact A4|].
    exists pre, attrs, t5. split; [|exact A2].
    rewrite E1, E2, E3, E4, E5. reflexivity.
Qed.

Lemma extractEntityFromContext_identifier_witness :
  Entity.identifier (extractEntityFromContext entityMarkup) = Some "0000200406" /\
  Str.count "<" "0000200406" = 0.
Proof.
  assert (E : Entity.identifier (extractEntityFromContext entityMarkup) = Some "0000200406")
    by (vm_compute; reflexivity).
  split; [exact E|].
  exact (proj1 (proj2 (extractEntityFromContext_identifier entityMarkup) _ E)).
Defined.

(** ** Names and numbers *)

Section Split.

Variable sep : ascii.

Lemma split_not_nil (s : string) : Str.split sep s <> [].
Proof.
  intros E. pose proof (split_length sep s) as L. rewrite E in L. discriminate.
Qed.

(** Joining the pieces with the separator gives the string back. *)
Lemma split_concat (s : string) :
  String.concat (String sep EmptyString) (Str.split sep s) = s.
Proof.
  induction s as [|c s IH]; [reflexivity|].
  cbn [Str.split]. pose proof (split_not_nil s) as Hn.
  destruct (Char.eqb c sep) eqn:E.
  - apply eqb_char_eq in E as ->.
    destruct (Str.split sep s) as [|p ps]; [contradiction|].
    change (String.concat (String sep EmptyString) (EmptyString :: p :: ps))
      with (EmptyString +:+ String sep EmptyString
              +:+ String.concat (String sep EmptyString) (p :: ps)).
    now rewrite IH.
  - destruct (Str.split sep s) as [|p ps]; [contradiction|].
    destruct ps as [|p' ps].
    + cbn [String.concat] in *. now rewrite IH.
    + change (String.concat (String sep EmptyString) (String c p :: p' :: ps))
        with (String c p +:+ String sep EmptyString
                +:+ String.concat (String sep EmptyString) (p' :: ps)).
      change (String.concat (String sep EmptyString) (p :: p' :: ps))
        with (p +:+ String sep EmptyString
                +:+ String.concat (String sep EmptyString) (p' :: ps)) in IH.
      now rewrite app_cons_str, IH.
Qed.

(** No piece has the separator in it. *)
Lemma split_pieces (s : string) :
  Forall (fun p => Str.count sep p = 0) (Str.split sep s).
Proof.
  induction s as [|c s IH]; [repeat constructor|].
  cbn [Str.split]. destruct (Char.eqb c sep) eqn:E.
  - constructor; [reflexivity | exact IH].
  - destruct (Str.split sep s) as [|p ps]; [repeat constructor; cbn; now rewrite E|].
    inversion IH as [|? ? Hp Hps]; subst. constructor; [|exact Hps].
    cbn [Str.count]. now rewrite E, Hp.
Qed.

End Split.

(** X17. [parseXbrlName] loses nothing of a name.  A name with one
    separator is split at it: the two parts, joined by the separator, are
    the name, and neither has a separator.  Every other name is kept whole
    as the local name, under the namespace [default]. *)
Theorem parseXbrlName_round_trip (name : string) :
  let (ns, localName) := parseXbrlName name in
  (Str.count ":" name = 1 /\ name = ns +:+ ":" +:+ localName /\
   Str.count ":" ns = 0 /\ Str.count ":" localName = 0)
  \/ (Str.count ":" name <> 1 /\ ns = "default" /\ localName = name).
Proof.
  unfold parseXbrlName.
  pose proof (split_length ":" name) as L.
  pose proof (split_concat ":" name) as J.
  pose proof (split_pieces ":" name) as P.
  destruct (Str.split ":" name) as [|a [|b [|c l]]]; cbn [length] in L.
  - discriminate.
  - right. repeat split. lia.
  - left. apply Forall_cons in P as [Ha P]. apply Forall_cons in P as [Hb _].
    split; [lia | split; [symmetry; exact J | split; assumption]].
  - right. repeat split. lia.
Qed.

(** ** Texts of digits and thousands separators *)

Section DigitTexts.

Lemma digit_char (c : ascii) :
  Char.isDigit c = true ->
  Char.isWhiteSpace c = false /\ Char.eqb "I" c = false /\ (0 <= Char.digit c)%Z.
Proof.
  destruct c as [[] [] [] [] [] [] [] []]; try discriminate; intros _;
    repeat split; discriminate.
Qed.

Lemma spanSign_digit (c : ascii) (t : string) :
  Char.isDigit c = true -> Num.spanSign (String c t) = (false, String c t).
Proof.
  destruct c as [[] [] [] [] [] [] [] []]; try discriminate; reflexivity.
Qed.

Lemma spanDigits_all (ds : string) :
  allChars Char.isDigit ds = true -> Num.spanDigits ds = (ds, EmptyString).
Proof.
  induction ds as [|c t IH]; [reflexivity|]. cbn [allChars Num.spanDigits].
  intros H. apply andb_true_iff in H as [Hc Ht]. now rewrite Hc, (IH Ht).
Qed.

Lemma valueIn_nonneg (ds : string) (acc : Z) :
  allChars Char.isDigit ds = true -> (0 <= acc)%Z ->
  (0 <= Num.valueIn 10 Char.digit acc ds)%Z.
Proof.
  revert acc. induction ds as [|c t IH]; intros acc H Ha; [exact Ha|].
  cbn [allChars Num.valueIn] in *. apply andb_true_iff in H as [Hc Ht].
  apply IH; [exact Ht|]. destruct (digit_char c Hc) as (_ & _ & Hd). lia.
Qed.

Lemma removeCommas_digits (value : string) :
  allChars digitOrComma value = true ->
  allChars Char.isDigit (Str.removeCommas value) = true.
Proof.
  induction value as [|c t IH]; [reflexivity|]. cbn [allChars Str.removeCommas].
  intros H. apply andb_true_iff in H as [Hc Ht]. unfold digitOrComma in Hc.
  destruct (Char.eqb c ",") eqn:E; [now apply IH|].
  rewrite orb_false_r in Hc. cbn [allChars]. now rewrite Hc, IH.
Qed.

(** The text of an integer reads as the number nearest to the integer. *)
Lemma parseFloat_digits (ds : string) :
  allChars Char.isDigit ds = true -> ds <> EmptyString ->
  Num.parseFloat ds = Num.ofDecimal false (Num.decimalValue ds) 0.
Proof.
  intros H Hne. destruct ds as [|c t]; [contradiction|].
  pose proof H as H'. cbn [allChars] in H'. apply andb_true_iff in H' as [Hc _].
  destruct (digit_char c Hc) as (Hw & Hi & _).
  unfold Num.parseFloat. cbn [Str.dropWhile]. rewrite Hw.
  rewrite (spanSign_digit c t Hc). cbn [Str.stripPrefix]. rewrite Hi.
  rewrite (spanDigits_all _ H). now rewrite app_nil_r_str.
Qed.

End DigitTexts.

Section Rounding.

Lemma shr_1_nonneg (mrs : shr_record) :
  (0 <= shr_m mrs)%Z -> (0 <= shr_m (shr_1 mrs))%Z.
Proof.
  destruct mrs as [m r s]. destruct m as [|p|p]; cbn; [lia | | lia].
  destruct p; cbn; lia.
Qed.

Lemma iter_pos_shr_1_nonneg (n : positive) (mrs : shr_record) :
  (0 <= shr_m mrs)%Z -> (0 <= shr_m (SpecFloat.iter_pos shr_1 n mrs))%Z.
Proof.
  revert mrs. induction n as [n IH | n IH |]; intros mrs H; cbn [SpecFloat.iter_pos].
  - apply IH, IH, shr_1_nonneg, H.
  - apply IH, IH, H.
  - apply shr_1_nonneg, H.
Qed.

Lemma shr_fexp_nonneg (m e : Z) (l : location) :
  (0 <= m)%Z -> (0 <= shr_m (fst (shr_fexp Num.prec Num.emax m e l)))%Z.
Proof.
  intros H. unfold shr_fexp, shr.
  assert (H0 : (0 <= shr_m (shr_record_of_loc m l))%Z)
    by (destruct l as [|[]]; exact H).
  destruct (_ - e)%Z; cbn [fst]; try exact H0.
  now apply iter_pos_shr_1_nonneg.
Qed.

Lemma round_nearest_even_nonneg (m : Z) (l : location) :
  (0 <= m)%Z -> (0 <= round_nearest_even m l)%Z.
Proof.
  intros H. destruct l as [|[]]; cbn; try lia. destruct (Z.even m); lia.
Qed.

(** Rounding a positive integer gives a number, and no negative zero. *)
Lemma binary_round_regular (m : positive) (e : Z) :
  binary_round Num.prec Num.emax false m e <> S754_nan /\
  binary_round Num.prec Num.emax false m e <> S754_zero true.
Proof.
  unfold binary_round. destruct (shl_align _ _ _) as [mz ez].
  unfold binary_round_aux.
  pose proof (shr_fexp_nonneg (Zpos mz) ez loc_Exact ltac:(lia)) as H1.
  destruct (shr_fexp Num.prec Num.emax (Z.pos mz) ez loc_Exact) as [mrs' e'].
  cbn [fst] in H1.
  pose proof (shr_fexp_nonneg
                (round_nearest_even (shr_m mrs') (loc_of_shr_record mrs')) e' loc_Exact
                (round_nearest_even_nonneg _ _ H1)) as H2.
  destruct (shr_fexp Num.prec Num.emax _ e' loc_Exact) as [mrs'' e''].
  cbn [fst] in H2.
  destruct (shr_m mrs'') as [|p|p]; [split; discriminate | | lia].
  destruct (e'' <=? Num.emax - Num.prec)%Z; split; discriminate.
Qed.

Lemma ofDecimal_regular (m : Z) :
  Num.ofDecimal false m 0 <> S754_nan /\ Num.ofDecimal false m 0 <> S754_zero true.
Proof.
  unfold Num.ofDecimal. destruct m; try (split; discriminate).
  cbn [Z.leb Z.compare]. apply binary_round_regular.
Qed.

End Rounding.

(** X18. Thousands separators are ignored.  A text of digits and commas,
    with at least one digit, decodes without a scale to the number nearest
    to the integer that its digits write. *)
Theorem parseNumericValue_digits_and_commas (value : string) :
  allChars digitOrComma value = true ->
  Str.removeCommas value <> EmptyString ->
  parseNumericValue value None = Num.ofZ (Num.decimalValue (Str.removeCommas value)).
Proof.
  intros H Hne. apply removeCommas_digits in H.
  unfold parseNumericValue. rewrite (parseFloat_digits _ H Hne).
  pose proof (valueIn_nonneg _ 0%Z H ltac:(lia)) as Hz.
  fold (Num.decimalValue (Str.removeCommas value)) in Hz.
  unfold Num.ofZ.
  replace (Num.decimalValue (Str.removeCommas value) <? 0)%Z with false
    by (symmetry; apply Z.ltb_ge; exact Hz).
  rewrite Z.abs_eq by exact Hz.
  destruct (ofDecimal_regular (Num.decimalValue (Str.removeCommas value))) as [Hn Hm].
  destruct (Num.ofDecimal false _ 0) as [[]| | |]; try reflexivity; contradiction.
Qed.

Lemma parseNumericValue_digits_and_commas_witness :
  parseNumericValue "2,406" None = Num.ofZ 2406.
Proof.
  apply (parseNumericValue_digits_and_commas "2,406"); [reflexivity | discriminate].
Defined.

(** ** The filter of the filings *)

Section FilterLists.

Context {A : Type}.

Lemma filter_filter_andb (p q : A -> bool) (l : list A) :
  List.filter q (List.filter p l) = List.filter (fun x => p x && q x) l.
Proof.
  induction l as [|a l IH]; [reflexivity|]. cbn [List.filter].
  destruct (p a); cbn [List.filter andb]; [|exact IH].
  destruct (q a); now rewrite IH.
Qed.

Lemma filter_all (p : A -> bool) (l : list A) :
  (forall x, In x l -> p x = true) -> List.filter p l = l.
Proof.
  induction l as [|a l IH]; intros H; [reflexivity|]. cbn [List.filter].
  rewrite (H a) by now left. rewrite IH; [reflexivity|]. intros x Hx. apply H. now right.
Qed.

Lemma filter_sublist (p : A -> bool) (l : list A) : sublist (List.filter p l) l.
Proof.
  induction l as [|a l IH]; [constructor|]. cbn [List.filter].
  destruct (p a); [now apply sublist_skip | now apply sublist_cons].
Qed.

End FilterLists.

Lemma truncate_nonneg (m : positive) (e : Z) :
  (0 <= truncate (S754_finite false m e))%Z.
Proof.
  unfold truncate. destruct (0 <=? e)%Z eqn:He.
  - apply Z.mul_nonneg_nonneg; [lia | apply Z.pow_nonneg; lia].
  - apply Z.leb_gt in He. apply Z.div_pos; [lia | apply Z.pow_pos_nonneg; lia].
Qed.

Lemma above_zero (limit : Num.number) :
  Num.ltb Num.zero limit = true -> limit <> S754_infinity false ->
  exists m e, limit = S754_finite false m e.
Proof.
  intros H Hinf. destruct limit as [s | [] | | [] m e]; try (cbv in H; discriminate).
  - contradiction.
  - eauto.
Qed.

Section Filters.

Variable filters : Filters.t.

(** The limit cuts nothing, or it keeps the first [n] entries of every
    list, for one [n]. *)
Lemma cut_take :
  (forall (A : Type) (l : list A), cut filters l = l) \/
  exists n, forall (A : Type) (l : list A), cut filters l = take n l.
Proof.
  unfold cut. destruct (Filters.limit filters) as [limit|]; [|now left].
  destruct limit as [s | [] | | [] m e]; try (now left).
  right. exists (Z.to_nat (truncate (S754_finite false m e))). intros A l.
  change (Num.truthy (S754_finite false m e) && Num.ltb Num.zero (S754_finite false m e))
    with true.
  cbv iota. unfold sliceTo.
  replace (truncate (S754_finite false m e) <? 0)%Z with false; [reflexivity|].
  symmetry. apply Z.ltb_ge. apply truncate_nonneg.
Qed.

Lemma filterFilings_eq (filings : list Filing.t) :
  filterFilings filings filters = cut filters (List.filter (passesb filters) filings).
Proof.
  unfold filterFilings, cut. cbv zeta.
  assert (E : forall X Y : list Filing.t, X = Y ->
            match Filters.limit filters with
            | Some limit =>
                if Num.truthy limit && Num.ltb Num.zero limit then sliceTo limit X else X
            | None => X
            end
            = match Filters.limit filters with
              | Some limit =>
                  if Num.truthy limit && Num.ltb Num.zero limit then sliceTo limit Y else Y
              | None => Y
              end) by (intros X Y ->; reflexivity).
  apply E. clear E. unfold passesb.
  destruct (Filters.formType filters) as [[|c1 s1]|],
           (Filters.startDate filters) as [[|c2 s2]|],
           (Filters.endDate filters) as [[|c3 s3]|];
    cbv beta iota; rewrite ?filter_filter_andb;
    first [ apply filter_ext; intros a; rewrite ?andb_true_r, ?andb_assoc; reflexivity
          | symmetry; apply filter_all; reflexivity ].
Qed.

Lemma passesb_passes (filing : Filing.t) :
  passesb filters filing = true <-> passes filters filing.
Proof.
  unfold passesb, passes. rewrite !andb_true_iff.
  assert (A1 : match Filters.formType filters with
               | Some (String _ _ as formType) =>
                   match Filing.form filing with
                   | Some (String _ _ as form) =>
                       Str.includes (Str.toLowerCase form) (Str.toLowerCase formType)
                   | _ => false
                   end
               | _ => true
               end = true <->
               (forall formType, Filters.formType filters = Some formType ->
                  formType <> EmptyString ->
                  exists form, Filing.form filing = Some form /\
                    Str.includes (Str.toLowerCase form) (Str.toLowerCase formType) = true)).
  { destruct (Filters.formType filters) as [[|c s]|].
    - split; [intros _ v [= <-] Hv; contradiction | reflexivity].
    - split.
      + intros H v [= <-] _. destruct (Filing.form filing) as [[|c' s']|]; try discriminate.
        eexists. split; [reflexivity | exact H].
      + intros H. destruct (H _ eq_refl ltac:(discriminate)) as (form & -> & Hi).
        destruct form as [|c' s']; [cbv in Hi; discriminate | exact Hi].
    - split; [intros _ v [=] | reflexivity]. }
  assert (A2 : match Filters.startDate filters with
               | Some (String _ _ as startDate) =>
                   match Filing.filingDate filing with
                   | Some (String _ _ as filingDate) => StrOrder.geb filingDate startDate
                   | _ => false
                   end
               | _ => true
               end = true <->
               (forall startDate, Filters.startDate filters = Some startDate ->
                  startDate <> EmptyString ->
                  exists filingDate, Filing.filingDate filing = Some filingDate /\
                    StrOrder.ltb filingDate startDate = false)).
  { destruct (Filters.startDate filters) as [[|c s]|].
    - split; [intros _ v [= <-] Hv; contradiction | reflexivity].
    - split.
      + intros H v [= <-] _.
        destruct (Filing.filingDate filing) as [[|c' s']|]; try discriminate.
        eexists. split; [reflexivity|]. now apply negb_true_iff in H.
      + intros H. destruct (H _ eq_refl ltac:(discriminate)) as (d & -> & Hi).
        destruct d as [|c' s']; [cbv in Hi; discriminate|].
        now apply negb_true_iff.
    - split; [intros _ v [=] | reflexivity]. }
  assert (A3 : match Filters.endDate filters with
               | Some (String _ _ as endDate) =>
                   match Filing.filingDate filing with
                   | Some (String _ _ as filingDate) => StrOrder.leb filingDate endDate
                   | _ => false
                   end
               | _ => true
               end = true <->
               (forall endDate, Filters.endDate filters = Some endDate ->
                  endDate <> EmptyString ->
                  exists filingDate, Filing.filingDate filing = Some filingDate /\
                    filingDate <> EmptyString /\ StrOrder.ltb endDate filingDate = false)).
  { destruct (Filters.endDate filters) as [[|c s]|].
    - split; [intros _ v [= <-] Hv; contradiction | reflexivity].
    - split.
      + intros H v [= <-] _.
        destruct (Filing.filingDate filing) as [[|c' s']|]; try discriminate.
        eexists. split; [reflexivity | split; [discriminate|]]. now apply negb_true_iff in H.
      + intros H. destruct (H _ eq_refl ltac:(discriminate)) as (d & -> & Hne & Hi).
        destruct d as [|c' s']; [contradiction|].
        now apply negb_true_iff.
    - split; [intros _ v [=] | reflexivity]. }
  rewrite A1, A2, A3. tauto.
Qed.

End Filters.

(** X19. What [filterFilings] returns: filings of those given, in their
    order, each of which passes every filter that is set: its form has the
    wanted type in it, letter case apart, and its filing date is not before
    the start date and not after the end date. *)
Theorem filterFilings_sound (filings : list Filing.t) (filters : Filters.t) :
  sublist (filterFilings filings filters) filings /\
  forall filing, In filing (filterFilings filings filters) -> passes filters filing.
Proof.
  rewrite filterFilings_eq.
  assert (S : sublist (cut filters (List.filter (passesb filters) filings))
                      (List.filter (passesb filters) filings)).
  { destruct (cut_take filters) as [H | (n & H)]; rewrite H; [reflexivity|].
    apply sublist_take. }
  split.
  - etransitivity; [exact S | apply filter_sublist].
  - intros filing H. apply list_elem_of_In in H.
    apply (fun H => elem_of_sublist _ _ _ H S), list_elem_of_In, filter_In in H as [_ H].
    now apply passesb_passes.
Qed.

(** X20. Without a limit nothing that passes is lost: the result has
    exactly the filings given that pass every filter that is set. *)
Theorem filterFilings_complete (filings : list Filing.t) (filters : Filters.t)
    (filing : Filing.t) :
  Filters.limit filters = None ->
  (In filing (filterFilings filings filters) <->
   In filing filings /\ passes filters filing).
Proof.
  intros H. rewrite filterFilings_eq. unfold cut. rewrite H.
  rewrite filter_In, passesb_passes. reflexivity.
Qed.

Lemma filterFilings_complete_witness :
  In quarterly2024 (filterFilings sampleFilings (Filters.Build (Some "10-q") None None None)).
Proof.
  apply (filterFilings_complete sampleFilings (Filters.Build (Some "10-q") None None None)
           quarterly2024 eq_refl).
  split; [right; right; left; reflexivity|].
  apply passesb_passes. reflexivity.
Defined.

(** X21. A limit above zero keeps the first filings of the result without
    the limit, as many as the limit without its fraction, so never more
    than the limit. *)
Theorem filterFilings_limit (filings : list Filing.t) (filters : Filters.t)
    (limit : Num.number) :
  Filters.limit filters = Some limit ->
  Num.ltb Num.zero limit = true ->
  limit <> S754_infinity false ->
  filterFilings filings filters
    = take (Z.to_nat (truncate limit)) (filterFilings filings (withoutLimit filters))
  /\ (Z.of_nat (length (filterFilings filings filters)) <= truncate limit)%Z.
Proof.
  intros Hl Hpos Hinf.
  assert (E : filterFilings filings filters
              = take (Z.to_nat (truncate limit)) (filterFilings filings (withoutLimit filters))).
  { rewrite !filterFilings_eq.
    change (passesb (withoutLimit filters)) with (passesb filters).
    change (cut (withoutLimit filters) (List.filter (passesb filters) filings))
      with (List.filter (passesb filters) filings).
    unfold cut. rewrite Hl.
    destruct (above_zero _ Hpos Hinf) as (m & e & ->).
    change (Num.truthy (S754_finite false m e) && Num.ltb Num.zero (S754_finite false m e))
      with true.
    cbv iota. unfold sliceTo.
    pose proof (truncate_nonneg m e) as K. apply Z.ltb_ge in K. now rewrite K. }
  split; [exact E|]. rewrite E, length_take.
  destruct (above_zero _ Hpos Hinf) as (m & e & ->).
  pose proof (truncate_nonneg m e). lia.
Qed.

Lemma filterFilings_limit_witness :
  filterFilings sampleFilings (Filters.Build None None None (Some (Num.ofZ 2)))
    = [quarterly2025; annual2024].
Proof.
  assert (Hinf : Num.ofZ 2 <> S754_infinity false) by (vm_compute; discriminate).
  exact (proj1 (filterFilings_limit sampleFilings
                  (Filters.Build None None None (Some (Num.ofZ 2))) (Num.ofZ 2)
                  eq_refl eq_refl Hinf)).
Defined.

(** X22. Filtering is idempotent: filtering the result again with the same
    filters changes nothing. *)
Theorem filterFilings_idempotent (filings : list Filing.t) (filters : Filters.t) :
  filterFilings (filterFilings filings filters) filters = filterFilings filings filters.
Proof.
  rewrite !filterFilings_eq.
  set (L := List.filter (passesb filters) filings).
  assert (HL : forall x, In x L -> passesb filters x = true).
  { intros x Hx. now apply filter_In in Hx as [_ Hx]. }
  destruct (cut_take filters) as [H | (n & H)]; rewrite !H.
  - now apply filter_all.
  - rewrite filter_all.
    + apply take_idemp.
    + intros x Hx. apply HL. apply list_elem_of_In in Hx. apply list_elem_of_In.
      exact (elem_of_sublist _ _ _ Hx (sublist_take _ _)).
Qed.

(** ** The text of an annotation and the content of a context block *)

Section ValueGroup.

(** The group of the value, [([^<]* )] in front of the closing tag, holds a
    text without [<]. *)
Lemma value_group (re : regexp) (l1 : list regex) (i : nat) (close s : string)
    (m : mresult) :
  source re = seqs (l1 ++ [Grp i notLt; Lit close]) ->
  i <= ngroups re ->
  In m (execAll re s) ->
  exists v, capture i m = Some v /\ Str.count "<" v = 0.
Proof.
  intros Hs Hi Hm. apply execAll_found in Hm as (pre & y & _ & Hr & Hc & _).
  rewrite Hs in Hr. apply run_seqs_app in Hr as (x1 & H1 & Hr).
  apply run_seqs_cons in Hr as (x2 & H2 & Hr).
  change (seqs [Lit close]) with (Lit close) in Hr.
  inversion Hr as [p x' t E | | | | | | |]; subst.
  inversion H2 as [| | | | | | | j r x' y2 Hv]; subst.
  pose proof (run_caps_length _ _ _ _ Hv) as L2.
  pose proof (run_caps_length _ _ _ _ H1) as L1. cbn [caps] in L1.
  destruct (run_star_cls _ _ _ _ _ Hv) as [Ha _].
  exists (consumed x1 y2). split.
  - unfold capture. rewrite Hc. cbn [caps]. unfold setCap.
    rewrite list_lookup_insert_eq; [reflexivity|].
    rewrite L2, L1, length_replicate. lia.
  - destruct (ignoreCase re).
    + now apply (allCls_count true "<" _ charEq_lt) in Ha.
    + now apply (allCls_count false "<" _ (fun a => eq_refl)) in Ha.
Qed.

End ValueGroup.

(** X23. The text of a fact is plain text: for every document, the raw
    value of an extracted fact has no [<] in it.  An annotation with markup
    inside it is not extracted with its content. *)
Theorem fact_value_is_plain_text (htmlContent : string) (fact : Fact.t) :
  In fact (extractFactsFromIxbrl htmlContent) ->
  Str.count "<" (Fact.valueRaw fact) = 0.
Proof.
  intros H.
  destruct (extractFactsFromIxbrl_In _ _ H) as [(m & Hm & ->) | [(m & Hm & ->) | (m & Hm & ->)]].
  - apply (value_group nonFractionPattern
             [Lit "<ix:nonFraction"; notGt; attr "name" 1; notGt; attr "contextRef" 2; notGt;
              Opt (attr "unitRef" 3); notGt; Opt (attr "decimals" 4); notGt;
              Opt (attr "scale" 5); notGt; Lit ">"] 6 "</ix:nonFraction>")
      in Hm as (v & Hv & Hc); [|reflexivity | cbn; lia].
    unfold nonFractionFact. destruct (parseXbrlName _). cbn [Fact.valueRaw].
    unfold group. now rewrite Hv.
  - apply (value_group fractionPattern
             [Lit "<ix:fraction"; notGt; attr "name" 1; notGt; attr "contextRef" 2; notGt;
              Lit ">"] 3 "</ix:fraction>")
      in Hm as (v & Hv & Hc); [|reflexivity | cbn; lia].
    unfold fractionFact. destruct (parseXbrlName _). cbn [Fact.valueRaw].
    unfold group. now rewrite Hv.
  - apply (value_group nonNumericPattern
             [Lit "<ix:nonNumeric"; notGt; attr "name" 1; notGt; attr "contextRef" 2; notGt;
              Lit ">"] 3 "</ix:nonNumeric>")
      in Hm as (v & Hv & Hc); [|reflexivity | cbn; lia].
    unfold nonNumericFact. destruct (parseXbrlName _). cbn [Fact.valueRaw].
    unfold group. now rewrite Hv.
Qed.

Lemma fact_value_is_plain_text_witness :
  In (nonFractionFact sharesMatch) (extractFactsFromIxbrl sharesMarkup) /\
  Fact.valueRaw (nonFractionFact sharesMatch) = "2,406" /\
  Str.count "<" (Fact.valueRaw (nonFractionFact sharesMatch)) = 0.
Proof.
  assert (H : In (nonFractionFact sharesMatch) (extractFactsFromIxbrl sharesMarkup))
    by (vm_compute; left; reflexivity).
  split; [exact H | split; [vm_compute; reflexivity|]].
  exact (fact_value_is_plain_text sharesMarkup _ H).
Defined.

Section LazyStar.

Variable ci : bool.


End LazyStar.




(** ** The class of a matched fact *)

Lemma includes_trans (a b c : string) :
  Str.includes a b = true -> Str.includes b c = true -> Str.includes a c = true.
Proof.
  intros H1 H2. apply includes_spec in H1 as (p & q & ->).
  apply includes_spec in H2 as (p' & q' & ->).
  apply includes_spec. exists (p +:+ p'), (q' +:+ q). now rewrite !app_assoc_str.
Qed.

(** X25. A search for revenue is classified as revenue.  When the concept
    of the criteria has [revenue] in it, letter case apart, every result is
    put in one of the four revenue classes, whatever else its concept
    names; and it is [Total Revenue] exactly when its context has no
    member, or an empty one, for each of the four axes that the classes
    look at: a revenue of one product, say, counts as a total. *)
Theorem revenue_search_is_classified_as_revenue (facts : list Fact.t)
    (contexts : gmap string Context.t) (criteria : Criteria.t) (c : string)
    (m : Matched.t) :
  Criteria.concept criteria = Some c ->
  Str.includes (Str.toLowerCase c) "revenue" = true ->
  In m (findDimensionalFacts facts contexts criteria) ->
  In (classifyFact m)
     ["Subsegment Revenue"; "Segment Revenue"; "Geographic Revenue"; "Total Revenue"]
  /\ (classifyFact m = "Total Revenue" <->
      forall axis, In axis classAxes ->
                   truthy (Context.dimensions (Matched.context m) !! axis) = false).
Proof.
  intros Hc Hrev Hm.
  assert (Hne : c <> EmptyString) by (intros ->; cbv in Hrev; discriminate).
  apply findDimensionalFacts_In in Hm as (f & _ & Hm).
  apply matchFact_Some in Hm as (Hcc & _ & _ & context & _ & _ & ->).
  unfold conceptCheck in Hcc. rewrite Hc in Hcc.
  destruct c as [|c0 c']; [contradiction|].
  pose proof (includes_trans _ _ _ Hcc Hrev) as Hr.
  unfold classifyFact. cbn [enrich Matched.fact Matched.dimensions Matched.context].
  destruct (Fact.concept f) as [|a name]; [cbv in Hr; discriminate|].
  cbv zeta. rewrite Hr.
  set (dims := Context.dimensions context).
  assert (Hsize : forall axis, truthy (dims !! axis) = true -> (0 <? size dims)%nat = true).
  { intros axis H. apply Nat.ltb_lt.
    destruct (dims !! axis) as [v|] eqn:E; [|discriminate].
    destruct (decide (size dims = 0)) as [Z|Z]; [|lia].
    apply map_size_empty_inv in Z. rewrite Z, lookup_empty in E. discriminate. }
  unfold classAxes.
  destruct (truthy (dims !! "us-gaap:SubsegmentsAxis")) eqn:E1.
  { rewrite (Hsize _ E1). cbn [andb]. split; [now left|].
    split; [discriminate|]. intros H. specialize (H _ (or_introl eq_refl)). congruence. }
  destruct (truthy (dims !! "us-gaap:StatementBusinessSegmentsAxis")) eqn:E2.
  { rewrite (Hsize _ E2). cbn [andb]. split; [right; now left|].
    split; [discriminate|]. intros H.
    specialize (H _ (or_intror (or_introl eq_refl))). congruence. }
  destruct (truthy (dims !! "srt:StatementGeographicalAxis")) eqn:E3.
  { rewrite (Hsize _ E3). cbn [andb orb]. split; [right; right; now left|].
    split; [discriminate|]. intros H.
    specialize (H _ (or_intror (or_intror (or_introl eq_refl)))). congruence. }
  destruct (truthy (dims !! "us-gaap:StatementGeographicalAxis")) eqn:E4.
  { rewrite (Hsize _ E4). cbn [andb orb]. split; [right; right; now left|].
    split; [discriminate|]. intros H.
    specialize (H _ (or_intror (or_intror (or_intror (or_introl eq_refl))))). congruence. }
  rewrite !andb_false_r. cbn [orb]. split; [right; right; right; now left|].
  split; [|reflexivity]. intros _ axis [<- | [<- | [<- | [<- | []]]]]; assumption.
Qed.

Lemma revenue_search_is_classified_as_revenue_witness :
  In (enrich revenueFact sampleContext)
     (findDimensionalFacts [revenueFact] sampleContexts criteriaA0) /\
  classifyFact (enrich revenueFact sampleContext) = "Geographic Revenue".
Proof.
  assert (H : In (enrich revenueFact sampleContext)
                 (findDimensionalFacts [revenueFact] sampleContexts criteriaA0))
    by (vm_compute; left; reflexivity).
  split; [exact H|].
  destruct (proj1 (revenue_search_is_classified_as_revenue [revenueFact] sampleContexts
                     criteriaA0 "revenue" _ eq_refl eq_refl H))
    as [E | [E | [E | [E | []]]]]; try (vm_compute in E; discriminate).
  symmetry. exact E.
Defined.
